(** * react-form-validity: the form gate, the fieldset hook and the list control

    A shallow embedding of [packages/react-form-validity/index.ts].

    - [JS]: the string built-ins the hooks call ([lastIndexOf], [slice]) and
      template-literal number printing.
    - [Path]: [getKey] and the name computed by [getFieldProps].
    - [FormValidity]: the blur / change / submit handlers of [useFormValidity]
      over the mutable ref [{ submitted, touched }].
    - [FieldsetControl]: the key sequence of [useFieldsetControl].
    - [Page]: a click on a button of the list control inside the form.
    - [Fieldset]: the [onInvalid] handler of [useFieldset] and the error
      mapping it maintains.
    - [Sample]: a two-field schema on which the hook is run.
    - [Session]: the gate over a sequence of events.
    - [Revalidation]: the effect of [useFieldset] on a new schema. *)

From Stdlib Require Import ZArith Ascii String DecimalString.
From stdpp Require Import base option list strings gmap fin_maps.

Local Open Scope string_scope.
Local Open Scope Z_scope.

(** ** JavaScript string built-ins *)

Module JS.

(** [s.includes(c)] for a one-character needle. *)
Fixpoint includes (c : ascii) (s : string) : bool :=
  match s with
  | EmptyString => false
  | String a r => if Ascii.eqb a c then true else includes c r
  end.

(** [s.lastIndexOf(c)] for a one-character needle: the greatest index at
    which [c] occurs, [-1] when it does not occur. *)
Fixpoint lastIndexOf (c : ascii) (s : string) : Z :=
  match s with
  | EmptyString => -1
  | String a r =>
      let k := lastIndexOf c r in
      if 0 <=? k then k + 1
      else if Ascii.eqb a c then 0 else -1
  end.

(** Relative index resolution of [slice]: a negative index counts from the
    end, and both ends are clamped to [0 .. len]. *)
Definition clampIndex (len i : Z) : Z :=
  if i <? 0 then Z.max (len + i) 0 else Z.min i len.

(** [s.slice(start, end)]; [end_ = None] is the one-argument call. *)
Definition slice (s : string) (start : Z) (end_ : option Z) : string :=
  let len := Z.of_nat (String.length s) in
  let from := clampIndex len start in
  let to := match end_ with
            | None => len
            | Some e => clampIndex len e
            end in
  if from <? to
  then substring (Z.to_nat from) (Z.to_nat (to - from)) s
  else EmptyString.

(** A falsy string is the empty one. *)
Definition truthy (s : string) : bool :=
  negb (String.eqb s EmptyString).

(** The names of the properties of [Object.prototype], which every plain
    object inherits; each of them reads as a truthy value (a function, or
    for [__proto__] the prototype itself). *)
Definition objectPrototype : list string :=
  ["constructor"; "__defineGetter__"; "__defineSetter__"; "hasOwnProperty";
   "__lookupGetter__"; "__lookupSetter__"; "isPrototypeOf";
   "propertyIsEnumerable"; "toString"; "valueOf"; "__proto__";
   "toLocaleString"].

(** Whether [o[k]] on a plain object without an own property [k] finds an
    inherited one. *)
Definition inherits (k : string) : bool :=
  existsb (String.eqb k) objectPrototype.

(** [o[k] = v] on a plain object whose own properties are [o], for a
    primitive [v]: an own property is written, except that with no own
    property [__proto__] the key [__proto__] reaches the inherited setter,
    which ignores a primitive. *)
Definition assign {A : Type} (k : string) (v : A) (o : gmap string A)
  : gmap string A :=
  if String.eqb k "__proto__" && negb (bool_decide (is_Some (o !! k)))
  then o
  else <[k := v]> o.

(** [`${n}`] for a non-negative integer. *)
Definition numberToString (n : nat) : string :=
  NilEmpty.string_of_uint (Nat.to_uint n).

End JS.

(** ** Addresses *)

Module Path.

(** [getKey(element)], as a function of [element.name]. *)
Definition getKey (name : string) : string :=
  JS.slice name (JS.lastIndexOf "." name + 1) None.

(** The [name] computed on the first line of [getFieldProps]:
    [options.name ? `${options.name}.${options.key}` : options.key].
    [options.name] is optional, [None] is [undefined]. *)
Definition fieldName (name : option string) (key : string) : string :=
  match name with
  | Some parent =>
      if JS.truthy parent then parent +:+ "." +:+ key else key
  | None => key
  end.

(** [`${name}[${index}]`]. *)
Definition indexedName (name : string) (index : nat) : string :=
  name +:+ "[" +:+ JS.numberToString index +:+ "]".

End Path.

(** ** The touch / submit gate of [useFormValidity] *)

Module FormValidity.

(** What [registry.checkValidity] is handed: the [event.target] of a blur
    or change (a node whose [name] may be [undefined]), or the
    [event.currentTarget] of a submit, the form. *)
Inductive Target : Type :=
| Control (name : option string)
| Form.

(** The ref [{ submitted, touched }]; [touched] holds the own properties
    of the plain object [{}] the hook creates, which inherits from
    [Object.prototype]. *)
Record FormRef : Type := mkRef {
  submitted : bool;
  touched : gmap string bool;
}.

(** [useRef({ submitted: false, touched: {} })]. *)
Definition initialRef : FormRef :=
  {| submitted := false; touched := ∅ |}.

(** A caller-supplied event handler, known by a label only. *)
Inductive Callback : Type :=
| UserCallback (id : nat).

(** The props handed to the hook. *)
Record FormValidityProps : Type := mkProps {
  noValidate : option bool;
  onChange : option Callback;
  onBlur : option Callback;
  onSubmit : option Callback;
}.

(** What a handler does to the outside, in order. *)
Inductive Effect : Type :=
| CheckValidity (t : Target)
| PreventDefault
| Call (cb : Callback).

(** Handlers read and write the ref and emit effects. *)
Definition Handler (A : Type) : Type :=
  FormRef -> A * FormRef * list Effect.

Definition ret {A : Type} (x : A) : Handler A :=
  fun r => (x, r, []).

Definition bind {A B : Type} (m : Handler A) (k : A -> Handler B)
  : Handler B :=
  fun r =>
    let '(x, r1, t1) := m r in
    let '(y, r2, t2) := k x r1 in
    (y, r2, (t1 ++ t2)%list).

Declare Scope handler_scope.
Delimit Scope handler_scope with handler.
Bind Scope handler_scope with Handler.

Notation "'let*' x ':=' m 'in' k" :=
  (bind m (fun x => k))
    (at level 10, x name, m at level 100, k at level 200)
  : handler_scope.
Notation "m ;; k" :=
  (bind m (fun _ => k))
    (at level 100, k at level 200, right associativity) : handler_scope.

Local Open Scope handler_scope.

Definition get : Handler FormRef := fun r => (r, r, []).
Definition put (r : FormRef) : Handler unit := fun _ => (tt, r, []).
Definition emit (e : Effect) : Handler unit := fun r => (tt, r, [e]).

(** [cb?.(event)]. *)
Definition callOptional (cb : option Callback) : Handler unit :=
  match cb with
  | Some f => emit (Call f)
  | None => ret tt
  end.

Definition finalRef {A} (o : A * FormRef * list Effect) : FormRef :=
  snd (fst o).
Definition trace {A} (o : A * FormRef * list Effect) : list Effect :=
  snd o.

(** The targets on which the registry was run, in order. *)
Fixpoint checks (t : list Effect) : list Target :=
  match t with
  | [] => []
  | CheckValidity x :: r => x :: checks r
  | _ :: r => checks r
  end.

(** Truthiness of [touched[key]]: the own property when there is one,
    and otherwise whatever [Object.prototype] has under that key. *)
Definition isTouched (r : FormRef) (key : string) : bool :=
  match touched r !! key with
  | Some b => b
  | None => JS.inherits key
  end.

Section Handlers.

(** The submitter element of a submit event, and the two functions the
    hook imports from [form-validity]: [shouldSkipValidate], and the
    registry's [checkValidity] as the answer it gives on the current
    document. *)
Context {Submitter : Type}.
Variable shouldSkipValidate : option Submitter -> bool.
Variable registry : Target -> bool.
Variable props : FormValidityProps.

Definition checkValidity (t : Target) : Handler bool :=
  fun r => (registry t, r, [CheckValidity t]).

(** [handleBlur]; the property key of an [undefined] name is the string
    ["undefined"]. *)
Definition handleBlur (name : option string) : Handler unit :=
  let* r := get in
  put {| submitted := submitted r;
         touched := JS.assign (default "undefined" name) true (touched r) |};;
  checkValidity (Control name);;
  callOptional (onBlur props).

(** [handleChange]; [name ?? ''] is the key that is looked up. *)
Definition handleChange (name : option string) : Handler unit :=
  let* r := get in
  (if submitted r || isTouched r (default EmptyString name)
   then checkValidity (Control name);; ret tt
   else ret tt);;
  callOptional (onChange props).

(** [handleSubmit]; [&&] runs the registry only when the submitter is
    not exempt. *)
Definition handleSubmit (submitter : option Submitter) : Handler unit :=
  let* r := get in
  put {| submitted := true; touched := touched r |};;
  let* blocked :=
    (if negb (shouldSkipValidate submitter)
     then let* valid := checkValidity Form in ret (negb valid)
     else ret false) in
  if blocked then emit PreventDefault else callOptional (onSubmit props).

End Handlers.

(** The effects of [cb?.(event)]. *)
Definition called (cb : option Callback) : list Effect :=
  match cb with
  | Some f => [Call f]
  | None => []
  end.

End FormValidity.

(** ** The list control of [useFieldsetControl] *)

Module FieldsetControl.

(** The [value] and [error] records a fieldset is handed: a leaf text or a
    record of named entries (an array is the record of its indices). *)
#[warnings="-register-all"] Inductive Data : Type :=
| Leaf (text : string)
| Node (entries : list (string * Data)).

(** [d?.[k]] on [undefined] and on a record, among the record's own
    entries. What a leaf text or a prototype has under [k] is not
    modelled: no statement below reads a value or an error through it. *)
Definition at_key (d : option Data) (k : string) : option Data :=
  match d with
  | Some (Node entries) =>
      snd <$> List.find (fun e => String.eqb (fst e) k) entries
  | _ => None
  end.

(** [FieldsetOptions]. *)
Record FieldsetOptions : Type := mkOptions {
  name : string;
  value : option Data;
  error : option Data;
}.

(** The two shapes [getFieldProps] returns for a [fieldset] field. *)
Inductive FieldsetProps : Type :=
| Single (option : FieldsetOptions)
| Repeated (options : list FieldsetOptions).

(** The [config.tag === 'fieldset'] branch of [getFieldProps]; [count] is
    [config.count], [parent], [value] and [error] come from [options]. *)
Definition getFieldProps
    (count : option nat) (parent : option string) (key : string)
    (value error : option Data) : FieldsetProps :=
  let option := {| name := Path.fieldName parent key;
                   value := at_key value key;
                   error := at_key error key |} in
  match count with
  | None => Single option
  | Some n =>
      Repeated
        (List.map
           (fun index =>
              {| name := Path.indexedName option.(name) index;
                 value := at_key option.(FieldsetControl.value)
                            (JS.numberToString index);
                 error := at_key option.(FieldsetControl.error)
                            (JS.numberToString index) |})
           (seq 0 n))
  end.

(** [[...Array(n).keys()]]. *)
Definition indexKeys (n : nat) : list Z :=
  List.map Z.of_nat (seq 0 n).

(** The initial state [useState(() => [...Array(options.length).keys()])]. *)
Definition initialKeys (options : list FieldsetOptions) : list Z :=
  indexKeys (length options).

Inductive Exn : Type :=
| Error (message : string).

Inductive Result (A : Type) : Type :=
| Ok (a : A)
| Throw (e : Exn).
Arguments Ok {A} a.
Arguments Throw {A} e.

Definition inconsistentName : Exn :=
  Error "Inconsistent name found; Only nested array fieldset is supported".

(** [option.name.slice(0, option.name.lastIndexOf('['))]. *)
Definition parentName (option : FieldsetOptions) : string :=
  JS.slice option.(name) 0 (Some (JS.lastIndexOf "[" option.(name))).

(** [options.reduce(callback, result)] with the callback of the hook. *)
Fixpoint reduceName (result : string) (options : list FieldsetOptions)
  : Result string :=
  match options with
  | [] => Ok result
  | option :: rest =>
      let name := parentName option in
      if JS.truthy result && negb (String.eqb result name)
      then Throw inconsistentName
      else reduceName name rest
  end.

Definition listName (options : list FieldsetOptions) : Result string :=
  reduceName EmptyString options.

(** [options[key]] for a numeric key. *)
Fixpoint at_index (options : list FieldsetOptions) (key : Z)
  : option FieldsetOptions :=
  match options with
  | [] => None
  | option :: rest =>
      if key =? 0 then Some option
      else if key <? 0 then None
      else at_index rest (key - 1)
  end.

(** The add and delete buttons: the arguments of [draftUpdate], and
    [formNoValidate]; both are of type [submit]. The add button is the one
    without an index. What a click on them does is [onClick] below. *)
Record Button : Type := mkButton {
  draftName : string;
  draftIndex : option nat;
  formNoValidate : bool;
}.

Record Entry : Type := mkEntry {
  key : Z;
  options : FieldsetOptions;
  deleteButton : Button;
}.

(** [onClick] of the add button, [now] being [Date.now()]. *)
Definition append (now : Z) (keys : list Z) : list Z :=
  (keys ++ [now])%list.

(** [onClick] of the delete button of position [index]. *)
Definition remove (index : nat) (keys : list Z) : list Z :=
  (take index keys ++ drop (S index) keys)%list.



(** The memoised [result]. *)
Definition entries
    (name : string) (options : list FieldsetOptions) (keys : list Z)
  : list Entry :=
  imap
    (fun index key =>
       {| key := key;
          options :=
            match at_index options key with
            | Some option => option
            | None => {| name := Path.indexedName name index;
                         value := None; error := None |}
            end;
          deleteButton := {| draftName := name;
                             draftIndex := Some index;
                             formNoValidate := true |} |})
    keys.

(** One render of the hook with the key state [keys]. *)
Definition useFieldsetControl
    (options : list FieldsetOptions) (keys : list Z)
  : Result (list Entry * Button) :=
  match listName options with
  | Throw e => Throw e
  | Ok name =>
      Ok (entries name options keys,
          {| draftName := name; draftIndex := None;
             formNoValidate := true |})
  end.

(** The effect on [options.length]. *)
Definition reconcile
    (options : list FieldsetOptions) (keys : list Z) : list Z :=
  if decide (length keys = length options)
  then keys
  else indexKeys (length options).

(** The names of the rendered entries, in order. *)
Definition names (es : list Entry) : list string :=
  List.map (fun e => e.(options).(name)) es.

(** The reading of growth by one: reconciling appends one key to the
    keys held. *)
Definition growsByOne
    (options : list FieldsetOptions) (keys : list Z) : Prop :=
  exists k, reconcile options keys = (keys ++ [k])%list.

(** The reading of the naming check: options that disagree on their
    parent name make the hook throw. *)
Definition disagree (options : list FieldsetOptions) : Prop :=
  exists o1 o2, o1 ∈ options /\ o2 ∈ options /\
                parentName o1 <> parentName o2.

End FieldsetControl.

(** ** A form with a list control in it *)

Module Page.



End Page.

(** ** The fieldset hook: [onInvalid] and the error mapping *)

Module Fieldset.

(** The flags of a [ValidityState] that the platform's own checks set. *)
Record NativeValidity : Type := mkNative {
  valueMissing : bool;
  typeMismatch : bool;
  patternMismatch : bool;
  tooLong : bool;
  tooShort : bool;
  rangeUnderflow : bool;
  rangeOverflow : bool;
  stepMismatch : bool;
  badInput : bool;
}.

(** [element.validity]. *)
Record ValidityState : Type := mkValidity {
  native : NativeValidity;
  customError : bool;
}.

Definition satisfied (n : NativeValidity) : bool :=
  negb (valueMissing n || typeMismatch n || patternMismatch n || tooLong n
        || tooShort n || rangeUnderflow n || rangeOverflow n
        || stepMismatch n || badInput n).

(** [validity.valid]. *)
Definition valid (v : ValidityState) : bool :=
  satisfied (native v) && negb (customError v).

(** The part of an input element the hook reads and writes: its name, the
    outcome of the platform's own checks with the text the platform has for
    it, and the custom validity message. *)
Record HTMLInputElement : Type := mkElement {
  name : string;
  constraints : NativeValidity;
  nativeMessage : string;
  customValidity : string;
}.

(** [element.validity]: a custom error is a custom message that is not
    empty. *)
Definition validity (element : HTMLInputElement) : ValidityState :=
  {| native := constraints element;
     customError := JS.truthy (customValidity element) |}.

(** [element.validationMessage]: empty for a valid element, the custom
    message under a custom error, the platform's text otherwise. *)
Definition validationMessage (element : HTMLInputElement) : string :=
  if valid (validity element) then EmptyString
  else if JS.truthy (customValidity element) then customValidity element
  else nativeMessage element.

(** [element.setCustomValidity(message)]. *)
Definition setCustomValidity (message : string) (element : HTMLInputElement)
  : HTMLInputElement :=
  {| name := name element;
     constraints := constraints element;
     nativeMessage := nativeMessage element;
     customValidity := message |}.

(** What a state updater hands back: the very object it was given, or a
    fresh one. *)
Inductive Update (A : Type) : Type :=
| Same
| Fresh (next : A).
Arguments Same {A}.
Arguments Fresh {A} next.

(** The state after [setState(updater)]; [None] is no call at all. *)
Definition commit {A : Type} (u : option (Update A)) (current : A) : A :=
  match u with
  | Some (Fresh next) => next
  | Some Same | None => current
  end.

(** The updater handed to [setErrorMessage]:
    [error[key] === message ? error : { ...error, [key]: message }]. *)
Definition errorUpdater (key message : string) (error : gmap string string)
  : Update (gmap string string) :=
  if decide (error !! key = Some message)
  then Same
  else Fresh (<[key := message]> error).

(** What one run of [onInvalid] leaves: the element, the key and message
    it synthesised (if it got that far) and the state update it asked
    for. *)
Record Outcome : Type := mkOutcome {
  element : HTMLInputElement;
  synthesized : option (string * string);
  update : option (Update (gmap string string));
}.

Section Hook.

(** A field of the schema and its configuration, with the two functions
    the hook imports from [form-validity]: [getFieldConfig] (on
    [fieldset[key]], which may be [undefined]; a falsy answer is [None])
    and [checkCustomValidity] (a nullish answer is [None]). [fieldset[key]]
    is read among the own properties of the schema; a statement that
    depends on what [getFieldConfig] is handed carries the proviso that
    the key names no member of [Object.prototype]. *)
Context {Field FieldConfig : Type}.
Variable getFieldConfig : option Field -> option FieldConfig.
Variable checkCustomValidity : ValidityState -> FieldConfig -> option string.

(** [onInvalid], on [e.currentTarget] and the current error mapping. *)
Definition onInvalid
    (fieldset : gmap string Field) (element : HTMLInputElement)
    (error : gmap string string) : Outcome :=
  let key := Path.getKey (name element) in
  match getFieldConfig (fieldset !! key) with
  | None => {| element := element; synthesized := None; update := None |}
  | Some config =>
      let element :=
        if String.eqb (validationMessage element) "valid"
        then setCustomValidity EmptyString element
        else element in
      let message :=
        match checkCustomValidity (validity element) config with
        | Some custom => custom
        | None => validationMessage element
        end in
      {| element := element;
         synthesized := Some (key, message);
         update := Some (errorUpdater key message error) |}
  end.


(** The element as [onInvalid] leaves it when it gets to the message. *)
Definition settled (element : HTMLInputElement) : HTMLInputElement :=
  if String.eqb (validationMessage element) "valid"
  then setCustomValidity EmptyString element
  else element.

(** The message [onInvalid] computes for an element as it stands:
    [checkCustomValidity(element.validity, config) ??
     element.validationMessage]. *)
Definition messageOf (config : FieldConfig) (element : HTMLInputElement)
  : string :=
  match checkCustomValidity (validity element) config with
  | Some custom => custom
  | None => validationMessage element
  end.

(** The controls of one fieldset, in document order, and its error
    mapping. *)
Record FormState : Type := mkForm {
  controls : list HTMLInputElement;
  errorMessage : gmap string string;
}.

(** What a check reports besides its answer: per evaluated control, the key
    and message that were synthesised. *)
Definition Report : Type := list (option (string * string)).

(** The mapping with what was synthesised written into it. *)
Definition record (said : option (string * string))
    (error : gmap string string) : gmap string string :=
  match said with
  | Some (key, message) => <[key := message]> error
  | None => error
  end.

(** The last message a report holds for a key. *)
Fixpoint lastSaid (report : Report) (k : string) : option string :=
  match report with
  | [] => None
  | said :: rest =>
      match lastSaid rest k with
      | Some m => Some m
      | None =>
          match said with
          | Some (key, message) =>
              if decide (key = k) then Some message else None
          | None => None
          end
      end
  end.

(** Modelled from the spec: the registry's [checkValidity] on a single
    control, which package [form-validity] defines. It triggers the
    control's validity re-evaluation, which runs the control's
    invalid-notification, and returns the control's current validity. *)
Definition checkControl
    (fieldset : gmap string Field) (element : HTMLInputElement)
    (error : gmap string string)
  : bool * HTMLInputElement * gmap string string * option (string * string) :=
  let o := onInvalid fieldset element error in
  (valid (validity o.(Fieldset.element)), o.(Fieldset.element),
   commit o.(update) error, o.(synthesized)).

(** Modelled from the spec: the registry's [checkValidity] on a form, which
    package [form-validity] defines. It walks the controls in document
    order, evaluates every one, and returns true iff all are valid. *)
Fixpoint checkControls
    (fieldset : gmap string Field) (elements : list HTMLInputElement)
    (error : gmap string string)
  : bool * list HTMLInputElement * gmap string string * Report :=
  match elements with
  | [] => (true, [], error, [])
  | element :: rest =>
      let '(ok, element', error', said) :=
        checkControl fieldset element error in
      let '(oks, rest', error'', report) :=
        checkControls fieldset rest error' in
      (ok && oks, element' :: rest', error'', said :: report)
  end.

(** The target of a check: the control at a position, or the form. *)
Inductive Target : Type :=
| Control (index : nat)
| Form.

(** Modelled from the spec: the registry's [checkValidity(target)], which
    package [form-validity] defines. A control that is not there is a no-op
    returning true. *)
Definition checkValidity
    (fieldset : gmap string Field) (target : Target) (s : FormState)
  : bool * FormState * Report :=
  match target with
  | Control index =>
      match controls s !! index with
      | None => (true, s, [])
      | Some element =>
          let '(ok, element', error', said) :=
            checkControl fieldset element (errorMessage s) in
          (ok,
           {| controls := <[index := element']> (controls s);
              errorMessage := error' |},
           [said])
      end
  | Form =>
      let '(ok, controls', error', report) :=
        checkControls fieldset (controls s) (errorMessage s) in
      (ok, {| controls := controls'; errorMessage := error' |}, report)
  end.

End Hook.

End Fieldset.

(** ** A small schema to run the hook on *)

Module Sample.

(** A schema whose fields are their own configuration: the text to show
    for a missing value, if any. *)
Definition getFieldConfig (field : option (option string))
  : option (option string) := field.

Definition checkCustomValidity
    (v : Fieldset.ValidityState) (config : option string) : option string :=
  if Fieldset.valueMissing (Fieldset.native v) then config else None.

Definition fieldset : gmap string (option string) :=
  {[ "email" := Some "Email is required"; "city" := None ]}.

Definition satisfied : Fieldset.NativeValidity :=
  Fieldset.mkNative false false false false false false false false false.

Definition missing : Fieldset.NativeValidity :=
  Fieldset.mkNative true false false false false false false false false.

(** A control that satisfies its constraints and carries the custom
    message ["valid"]. *)
Definition marked : Fieldset.HTMLInputElement :=
  Fieldset.mkElement "address.email" satisfied EmptyString "valid".


(** A required control left empty. *)
Definition empty : Fieldset.HTMLInputElement :=
  Fieldset.mkElement "address.email" missing "Please fill out this field." EmptyString.

End Sample.

(** ** A form's life as a sequence of events *)

From Stdlib Require Import DecimalNat.

Module Session.

Import FormValidity.

Section Events.

Context {Submitter : Type}.
Variable shouldSkipValidate : option Submitter -> bool.
Variable props : FormValidityProps.

(** An event the form receives. A blur or a change carries the name of
    its target; a submit carries its submitter and the answer the registry
    has for the form at that moment. *)
Inductive Event : Type :=
| Blur (name : option string)
| Change (name : option string)
| Submit (submitter : option Submitter) (formValid : bool).

(** The handler React calls for an event. The answer of the registry on a
    blur or a change is dropped by the handler. *)
Definition handle (e : Event) : Handler unit :=
  match e with
  | Blur name => handleBlur (fun _ => true) props name
  | Change name => handleChange (fun _ => true) props name
  | Submit submitter formValid =>
      handleSubmit shouldSkipValidate (fun _ => formValid) props submitter
  end.

(** The events of a session, handled in order on the same ref. *)
Fixpoint handleAll (es : list Event) : Handler unit :=
  match es with
  | [] => ret tt
  | e :: rest => bind (handle e) (fun _ => handleAll rest)
  end.

Definition isSubmit (e : Event) : bool :=
  match e with
  | Submit _ _ => true
  | _ => false
  end.

(** A blur that writes the key [a] of [touched]. *)
Definition marks (a : string) (e : Event) : bool :=
  match e with
  | Blur name => String.eqb (default "undefined" name) a
  | _ => false
  end.

(** A submit that is neither exempt nor valid. *)
Definition blocked (e : Event) : bool :=
  match e with
  | Submit submitter formValid =>
      negb (shouldSkipValidate submitter) && negb formValid
  | _ => false
  end.

End Events.

Arguments Event Submitter : clear implicits.

End Session.

(** ** The revalidation effect of [useFieldset] *)

Module Revalidation.

(** The schema object handed to the hook: which object it is, and the
    fields it holds now. [===] on two schema objects compares which
    objects they are. *)
Record Schema (Field : Type) : Type := mkSchema {
  identity : nat;
  fields : gmap string Field;
}.
Arguments mkSchema {Field} identity fields.
Arguments identity {Field} s.
Arguments fields {Field} s.

(** The ref of the hook, as far as the effect uses it: the own properties
    of the plain object [element] (the element registered under each key,
    [None] being [null]) and the schema seen last. The object inherits
    from [Object.prototype]. *)
Record HookRef (Field : Type) : Type := mkHookRef {
  element : gmap string (option Fieldset.HTMLInputElement);
  fieldset : Schema Field;
}.
Arguments mkHookRef {Field} element fieldset.
Arguments element {Field} h.
Arguments fieldset {Field} h.

(** What the loop hands to [registry.checkValidity]: an element registered
    under the key, or the member of [Object.prototype] that
    [element[key]] finds when nothing is registered under the key. *)
Inductive Handed : Type :=
| Registered (element : Fieldset.HTMLInputElement)
| Inherited (key : string).

(** One entry [[key, error]] of the loop: [field = element[key]] is checked
    when it is truthy and the message is not empty. *)
Definition toCheck
    (field : option (option Fieldset.HTMLInputElement))
    (key message : string) : option Handed :=
  if JS.truthy message
  then match field with
       | Some (Some element) => Some (Registered element)
       | Some None => None
       | None => if JS.inherits key then Some (Inherited key) else None
       end
  else None.

(** The effect on [[fieldset, errorMessage, registry]]: the ref it leaves
    and, per key of [errorMessage], what it hands to
    [registry.checkValidity]. *)
Definition effect {Field : Type}
    (ref : HookRef Field) (schema : Schema Field)
    (errorMessage : gmap string string)
  : HookRef Field * gmap string Handed :=
  if decide (identity (fieldset ref) = identity schema)
  then (ref, ∅)
  else ({| element := element ref; fieldset := schema |},
        map_imap (fun key message => toCheck (element ref !! key) key message)
          errorMessage).

End Revalidation.
(** ** Facts about the string built-ins *)

Section StringFacts.

Lemma lastIndexOf_lower c s : -1 <= JS.lastIndexOf c s.
Proof.
  induction s as [|a r IH]; simpl; [lia|].
  destruct (0 <=? JS.lastIndexOf c r) eqn:E; [apply Z.leb_le in E; lia|].
  destruct (Ascii.eqb a c); lia.
Qed.

Lemma lastIndexOf_absent c s :
  JS.includes c s = false -> JS.lastIndexOf c s = -1.
Proof.
  induction s as [|a r IH]; simpl; [done|].
  destruct (Ascii.eqb a c) eqn:E; [done|].
  intros H. rewrite (IH H). by simpl.
Qed.

Lemma lastIndexOf_present c s :
  JS.includes c s = true -> 0 <= JS.lastIndexOf c s.
Proof.
  induction s as [|a r IH]; simpl; [done|].
  destruct (0 <=? JS.lastIndexOf c r) eqn:E.
  - apply Z.leb_le in E. lia.
  - destruct (Ascii.eqb a c) eqn:Ea; [lia|].
    intros H. apply IH in H. apply Z.leb_gt in E. lia.
Qed.

Lemma lastIndexOf_upper c s :
  JS.lastIndexOf c s < Z.of_nat (String.length s).
Proof.
  induction s as [|a r IH]; simpl String.length; simpl JS.lastIndexOf; [lia|].
  destruct (0 <=? JS.lastIndexOf c r); [lia|].
  destruct (Ascii.eqb a c); lia.
Qed.

(** The last occurrence in [a ++ c :: k] is at [length a] when [k] is free
    of [c]. *)
Lemma lastIndexOf_app_sep c a k :
  JS.includes c k = false ->
  JS.lastIndexOf c (a +:+ String c k) = Z.of_nat (String.length a).
Proof.
  intros Hk. induction a as [|x a IH].
  - simpl. rewrite (lastIndexOf_absent _ _ Hk). simpl.
    by rewrite Ascii.eqb_refl.
  - change (String x a +:+ String c k) with (String x (a +:+ String c k)).
    simpl JS.lastIndexOf. rewrite IH.
    destruct (0 <=? Z.of_nat (String.length a)) eqn:E.
    + simpl String.length. lia.
    + apply Z.leb_gt in E. lia.
Qed.

Lemma substring_all s : substring 0 (String.length s) s = s.
Proof. induction s as [|a r IH]; simpl; [done|]. by rewrite IH. Qed.

Lemma substring_skip a b :
  substring (String.length a) (String.length b) (a +:+ b) = b.
Proof.
  induction a as [|x a IH]; simpl.
  - apply substring_all.
  - apply IH.
Qed.

Lemma length_app_string a b :
  String.length (a +:+ b) = (String.length a + String.length b)%nat.
Proof. induction a as [|x a IH]; simpl; [done|]. by rewrite IH. Qed.

Lemma app_string_cons x a b : String x a +:+ b = String x (a +:+ b).
Proof. reflexivity. Qed.

Lemma app_string_assoc a b c : (a +:+ b) +:+ c = a +:+ (b +:+ c).
Proof.
  induction a as [|x a IH]; [done|].
  by rewrite !app_string_cons, IH.
Qed.

(** Suffix from position [length a] of [a ++ b]. *)
Lemma slice_suffix a b :
  JS.slice (a +:+ b) (Z.of_nat (String.length a)) None = b.
Proof.
  unfold JS.slice, JS.clampIndex. rewrite length_app_string.
  destruct (Z.of_nat (String.length a) <? 0) eqn:E1;
    [apply Z.ltb_lt in E1; lia|].
  rewrite Z.min_l by lia.
  destruct (Z.of_nat (String.length a)
            <? Z.of_nat (String.length a + String.length b)) eqn:E2.
  - rewrite Nat2Z.id.
    replace (Z.to_nat (Z.of_nat (String.length a + String.length b)
                       - Z.of_nat (String.length a)))
      with (String.length b) by lia.
    apply substring_skip.
  - apply Z.ltb_ge in E2.
    destruct b; [done|simpl in E2; lia].
Qed.

Lemma slice_whole s : JS.slice s 0 None = s.
Proof. apply (slice_suffix EmptyString s). Qed.

Lemma includes_app c a b :
  JS.includes c (a +:+ b) = JS.includes c a || JS.includes c b.
Proof.
  induction a as [|x a IH]; simpl; [done|].
  destruct (Ascii.eqb x c); [done|apply IH].
Qed.

(** What [slice] returns from a last occurrence on is free of the needle. *)
Lemma includes_after_last c s :
  JS.includes c (JS.slice s (JS.lastIndexOf c s + 1) None) = false.
Proof.
  induction s as [|a r IH]; [done|].
  simpl JS.lastIndexOf.
  destruct (0 <=? JS.lastIndexOf c r) eqn:E.
  - apply Z.leb_le in E.
    pose proof (lastIndexOf_upper c r) as Hu.
    replace (JS.slice (String a r) (JS.lastIndexOf c r + 1 + 1) None)
      with (JS.slice r (JS.lastIndexOf c r + 1) None); [apply IH|].
    unfold JS.slice, JS.clampIndex. simpl String.length.
    destruct (JS.lastIndexOf c r + 1 <? 0) eqn:E1;
      [apply Z.ltb_lt in E1; lia|].
    destruct (JS.lastIndexOf c r + 1 + 1 <? 0) eqn:E2;
      [apply Z.ltb_lt in E2; lia|].
    rewrite !Z.min_l by lia.
    destruct (JS.lastIndexOf c r + 1 <? Z.of_nat (String.length r)) eqn:E3.
    + apply Z.ltb_lt in E3.
      destruct (JS.lastIndexOf c r + 1 + 1
                <? Z.of_nat (S (String.length r))) eqn:E4;
        [|apply Z.ltb_ge in E4; lia].
      replace (Z.to_nat (JS.lastIndexOf c r + 1 + 1))
        with (S (Z.to_nat (JS.lastIndexOf c r + 1))) by lia.
      simpl substring. f_equal. lia.
    + apply Z.ltb_ge in E3.
      destruct (JS.lastIndexOf c r + 1 + 1
                <? Z.of_nat (S (String.length r))) eqn:E4;
        [apply Z.ltb_lt in E4; lia|done].
  - apply Z.leb_gt in E.
    pose proof (lastIndexOf_lower c r) as Hl.
    assert (Hr : JS.includes c r = false).
    { destruct (JS.includes c r) eqn:Hi; [|done].
      apply lastIndexOf_present in Hi. lia. }
    destruct (Ascii.eqb a c) eqn:Ea.
    + change (String a r) with (EmptyString +:+ String a r) at 1.
      change (0 + 1) with (Z.of_nat (String.length (String a EmptyString))).
      change (EmptyString +:+ String a r) with (String a EmptyString +:+ r).
      by rewrite slice_suffix.
    + change (-1 + 1) with 0. rewrite slice_whole. simpl.
      by rewrite Ea.
Qed.

End StringFacts.


(** ** Path round-trip *)

Section PathRoundTrip.

Lemma getKey_plain key :
  JS.includes "." key = false -> Path.getKey key = key.
Proof.
  intros H. unfold Path.getKey.
  rewrite (lastIndexOf_absent _ _ H). apply slice_whole.
Qed.

Lemma getKey_nested parent key :
  JS.includes "." key = false ->
  Path.getKey (parent +:+ "." +:+ key) = key.
Proof.
  intros H. unfold Path.getKey.
  change ("." +:+ key) with (String "." key).
  rewrite (lastIndexOf_app_sep _ _ _ H).
  change (String "." key) with (String "." EmptyString +:+ key).
  rewrite <- app_string_assoc.
  replace (Z.of_nat (String.length parent) + 1)
    with (Z.of_nat (String.length (parent +:+ String "." EmptyString)))
    by (rewrite length_app_string; simpl; lia).
  apply slice_suffix.
Qed.

(** The key that [getKey] returns never holds a ["."]. *)
Lemma getKey_dot_free name : JS.includes "." (Path.getKey name) = false.
Proof. apply includes_after_last. Qed.

(** A key with a ["."] in it is not recovered, under any parent. *)
Lemma getKey_fieldName_dotted parent key :
  JS.includes "." key = true ->
  Path.getKey (Path.fieldName parent key) <> key.
Proof.
  intros H E.
  pose proof (getKey_dot_free (Path.fieldName parent key)) as F.
  rewrite E in F. congruence.
Qed.

End PathRoundTrip.

(** C4, as stated, fails: the root-level key ["a.b"] resolves to the name
    ["a.b"], whose last segment is ["b"]. *)
Lemma C4_counterexample :
  ~ (forall (parent : option string) (key : string),
        Path.getKey (Path.fieldName parent key) = key).
Proof.
  intros H. specialize (H None "a.b"). vm_compute in H. discriminate H.
Qed.

(** C4 (amended): for every parent address and every field key that holds no
    ["."], the last segment of the resolved name is the key:
    [getKey (fieldName parent key) = key]. *)
Theorem C4_path_roundtrip (parent : option string) (key : string) :
  JS.includes "." key = false ->
  Path.getKey (Path.fieldName parent key) = key.
Proof.
  intros H. unfold Path.fieldName.
  destruct parent as [p|]; [|by apply getKey_plain].
  destruct (JS.truthy p); [by apply getKey_nested|by apply getKey_plain].
Qed.

Lemma C4_path_roundtrip_witness :
  JS.includes "." "city" = false /\
  Path.getKey (Path.fieldName (Some "address") "city") = "city".
Proof.
  split; [reflexivity|].
  apply (C4_path_roundtrip (Some "address") "city"). reflexivity.
Defined.

(** ** The touch / submit gate *)

Section Gate.

Import FormValidity.

Context {Submitter : Type}.
Variable shouldSkipValidate : option Submitter -> bool.
Variable registry : Target -> bool.
Variable props : FormValidityProps.

Lemma checks_app (t1 t2 : list Effect) :
  checks (t1 ++ t2)%list = (checks t1 ++ checks t2)%list.
Proof.
  induction t1 as [|e t1 IH]; [done|].
  destruct e; simpl; by rewrite ?IH.
Qed.

Lemma checks_called cb : checks (called cb) = [].
Proof. by destruct cb. Qed.

Lemma handleBlur_run name r :
  handleBlur registry props name r =
  (tt,
   {| submitted := submitted r;
      touched := JS.assign (default "undefined" name) true (touched r) |},
   CheckValidity (Control name) :: called (onBlur props)).
Proof.
  unfold handleBlur, bind, get, put, checkValidity, callOptional, emit, ret.
  by destruct (onBlur props).
Qed.

Lemma handleChange_run name r :
  handleChange registry props name r =
  (tt, r,
   ((if submitted r || isTouched r (default EmptyString name)
     then [CheckValidity (Control name)] else [])
    ++ called (onChange props))%list).
Proof.
  unfold handleChange, bind, get, checkValidity, callOptional, emit, ret.
  destruct (submitted r || isTouched r (default EmptyString name));
    by destruct (onChange props).
Qed.

Lemma handleSubmit_run submitter r :
  handleSubmit shouldSkipValidate registry props submitter r =
  (tt,
   {| submitted := true; touched := touched r |},
   if shouldSkipValidate submitter then called (onSubmit props)
   else if registry Form
        then CheckValidity Form :: called (onSubmit props)
        else [CheckValidity Form; PreventDefault]).
Proof.
  unfold handleSubmit, bind, get, put, checkValidity, callOptional, emit, ret.
  destruct (shouldSkipValidate submitter); simpl.
  - by destruct (onSubmit props).
  - destruct (registry Form); simpl; by destruct (onSubmit props).
Qed.

Lemma lookup_assign_ne {A} (k a : string) (v : A) (o : gmap string A) :
  k <> a -> JS.assign k v o !! a = o !! a.
Proof.
  intros H. unfold JS.assign.
  destruct (String.eqb k "__proto__" && _); [done|].
  by rewrite lookup_insert_ne.
Qed.

(** After [touched[k] = true] the key [k] reads truthy. *)
Lemma isTouched_assign r k :
  isTouched {| submitted := submitted r;
               touched := JS.assign k true (touched r) |} k = true.
Proof.
  unfold isTouched, JS.assign. simpl.
  destruct (String.eqb k "__proto__") eqn:E; simpl.
  - apply String.eqb_eq in E. subst k.
    destruct (touched r !! "__proto__") as [b|] eqn:Eb; simpl.
    + by rewrite lookup_insert_eq.
    + by rewrite Eb.
  - by rewrite lookup_insert_eq.
Qed.

(** The rule of the gate. A blur on the control named [a] makes
    [touched[a]] read truthy, changes no other key and not [submitted], and
    runs the registry on that control; a change leaves the ref alone and
    runs the registry exactly when [submitted] or [touched[a]] reads
    truthy. *)
Lemma gate_rule a r :
  let blur := handleBlur registry props (Some a) in
  let change := handleChange registry props (Some a) in
  (isTouched (finalRef (blur r)) a = true /\
   submitted (finalRef (blur r)) = submitted r /\
   (forall b, b <> a ->
      touched (finalRef (blur r)) !! b = touched r !! b) /\
   checks (trace (blur r)) = [Control (Some a)]) /\
  (finalRef (change r) = r /\
   checks (trace (change r))
     = if submitted r || isTouched r a then [Control (Some a)] else []).
Proof.
  intros blur change. subst blur change.
  rewrite !handleBlur_run, !handleChange_run.
  unfold finalRef, trace. simpl.
  repeat split.
  - apply isTouched_assign.
  - intros b Hb. by apply lookup_assign_ne.
  - by rewrite checks_called.
  - rewrite checks_app, checks_called.
    by destruct (submitted r || _).
Qed.

End Gate.

(** A pristine form: a change on ["email"] runs nothing, a blur on it runs
    the check and marks it, and a change after that runs the check. *)
Example gate_on_pristine :
  let props := FormValidity.mkProps None None None None in
  let blurred := FormValidity.handleBlur (fun _ => false) props
                   (Some "email") FormValidity.initialRef in
  FormValidity.trace
    (FormValidity.handleChange (fun _ => false) props (Some "email")
       FormValidity.initialRef) = [] /\
  FormValidity.trace blurred
    = [FormValidity.CheckValidity (FormValidity.Control (Some "email"))] /\
  FormValidity.trace
    (FormValidity.handleChange (fun _ => false) props (Some "email")
       (FormValidity.finalRef blurred))
    = [FormValidity.CheckValidity (FormValidity.Control (Some "email"))] /\
  FormValidity.trace
    (FormValidity.handleChange (fun _ => false) props (Some "name")
       (FormValidity.finalRef blurred)) = [].
Proof. by vm_compute. Qed.

(** C1, on the code: on the pristine ref, where nothing is touched and
    nothing was submitted, a change on the control named ["constructor"]
    does run the registry on it, because [touched["constructor"]] reads the
    member of [Object.prototype]; a change on ["email"] runs nothing, and a
    blur on either runs the registry once. *)
Theorem C1_touch_gating_on_code
    (registry : FormValidity.Target -> bool)
    (props : FormValidity.FormValidityProps) :
  FormValidity.touched FormValidity.initialRef = ∅ /\
  FormValidity.submitted FormValidity.initialRef = false /\
  FormValidity.checks
    (FormValidity.trace
       (FormValidity.handleChange registry props (Some "constructor")
          FormValidity.initialRef))
  = [FormValidity.Control (Some "constructor")] /\
  FormValidity.checks
    (FormValidity.trace
       (FormValidity.handleChange registry props (Some "email")
          FormValidity.initialRef)) = [] /\
  FormValidity.checks
    (FormValidity.trace
       (FormValidity.handleBlur registry props (Some "email")
          FormValidity.initialRef))
  = [FormValidity.Control (Some "email")].
Proof.
  rewrite !handleChange_run, handleBlur_run.
  unfold FormValidity.trace. simpl.
  rewrite !checks_app, !checks_called.
  repeat split.
Qed.

(** C2: every submit sets [submitted] (and leaves [touched] alone); with a
    submitter that is not exempt and a failing full-form check the default
    action is prevented and [onSubmit] is not called; otherwise [onSubmit]
    (when given) is called and nothing is prevented, and for an exempt
    submitter the registry is not run at all. *)
Theorem C2_submit_handling
    (Submitter : Type) (shouldSkipValidate : option Submitter -> bool)
    (registry : FormValidity.Target -> bool)
    (props : FormValidity.FormValidityProps)
    (submitter : option Submitter) (r : FormValidity.FormRef) :
  let out := FormValidity.handleSubmit shouldSkipValidate registry props
               submitter r in
  FormValidity.submitted (FormValidity.finalRef out) = true /\
  FormValidity.touched (FormValidity.finalRef out) = FormValidity.touched r /\
  FormValidity.trace out =
    match shouldSkipValidate submitter, registry FormValidity.Form with
    | true, _ => FormValidity.called (FormValidity.onSubmit props)
    | false, true =>
        FormValidity.CheckValidity FormValidity.Form
          :: FormValidity.called (FormValidity.onSubmit props)
    | false, false =>
        [FormValidity.CheckValidity FormValidity.Form;
         FormValidity.PreventDefault]
    end.
Proof.
  intros out. subst out. rewrite handleSubmit_run.
  unfold FormValidity.finalRef, FormValidity.trace. simpl.
  repeat split.
Qed.



(** ** The key sequence of the list control *)

Section KeySequence.

Import FieldsetControl.

Lemma length_indexKeys n : length (indexKeys n) = n.
Proof. unfold indexKeys. by rewrite length_map, length_seq. Qed.

Lemma indexKeys_S n : indexKeys (S n) = (indexKeys n ++ [Z.of_nat n])%list.
Proof. unfold indexKeys. by rewrite seq_S, map_app. Qed.

Lemma indexKeys_take m n : (m <= n)%nat -> take m (indexKeys n) = indexKeys m.
Proof.
  intros H. unfold indexKeys. rewrite firstn_map. f_equal.
  replace n with (m + (n - m))%nat by lia.
  rewrite seq_app.
  rewrite take_app_length'; [done|by rewrite length_seq].
Qed.

Lemma reconcile_same options keys :
  length keys = length options -> reconcile options keys = keys.
Proof. intros H. unfold reconcile. by rewrite decide_True. Qed.

Lemma reconcile_reset options keys :
  length keys <> length options ->
  reconcile options keys = indexKeys (length options).
Proof. intros H. unfold reconcile. by rewrite decide_False. Qed.

Lemma length_reconcile options keys :
  length (reconcile options keys) = length options.
Proof.
  unfold reconcile. case_decide; [done|apply length_indexKeys].
Qed.

End KeySequence.

(** How the keys of the next lemma come about: from the initial keys of two
    options, an append at time [1700000000000] and a delete at position [0]
    leave two keys, which the effect keeps while there are two options and
    replaces by [[0; 1; 2]] when there are three. *)
Example reconcile_after_append_remove :
  let two := [FieldsetControl.mkOptions "list[0]" None None;
              FieldsetControl.mkOptions "list[1]" None None] in
  let three := (two ++ [FieldsetControl.mkOptions "list[2]" None None])%list in
  let keys := FieldsetControl.remove 0
                (FieldsetControl.append 1700000000000
                   (FieldsetControl.initialKeys two)) in
  keys = [1; 1700000000000] /\
  FieldsetControl.reconcile two keys = keys /\
  FieldsetControl.reconcile three keys = [0; 1; 2].
Proof. by vm_compute. Qed.

(** C5, as stated, fails: with the keys [[1; 1700000000000]] left by an
    append and a delete, options growing from two to three are not answered
    by the held keys plus one. *)
Lemma C5_counterexample :
  ~ FieldsetControl.growsByOne
      [FieldsetControl.mkOptions "list[0]" None None;
       FieldsetControl.mkOptions "list[1]" None None;
       FieldsetControl.mkOptions "list[2]" None None]
      (FieldsetControl.remove 0
         (FieldsetControl.append 1700000000000
            (FieldsetControl.initialKeys
               [FieldsetControl.mkOptions "list[0]" None None;
                FieldsetControl.mkOptions "list[1]" None None]))).
Proof. intros [k H]. vm_compute in H. discriminate H. Qed.

(** C5 (amended): the effect compares lengths only. Keys as many as the
    options are kept as they are; otherwise the keys are replaced by the
    indices [0 .. length options - 1]. For keys that are still the indices
    [0 .. N-1], growth to [N+1] options appends the one key [N] after the
    [N] keys held, and shrinkage keeps a prefix of them. Options of the same
    length reconcile alike, whatever they hold. *)
Theorem C5_reconcile_by_length
    (options options' : list FieldsetControl.FieldsetOptions)
    (keys : list Z) (N : nat) :
  (length keys = length options ->
     FieldsetControl.reconcile options keys = keys) /\
  (length keys <> length options ->
     FieldsetControl.reconcile options keys
       = FieldsetControl.indexKeys (length options)) /\
  (length options = S N ->
     FieldsetControl.reconcile options (FieldsetControl.indexKeys N)
       = (FieldsetControl.indexKeys N ++ [Z.of_nat N])%list) /\
  ((length options <= N)%nat ->
     FieldsetControl.reconcile options (FieldsetControl.indexKeys N)
       = take (length options) (FieldsetControl.indexKeys N)) /\
  (length options' = length options ->
     FieldsetControl.reconcile options' keys
       = FieldsetControl.reconcile options keys).
Proof.
  split; [apply reconcile_same|].
  split; [apply reconcile_reset|].
  split; [|split].
  - intros H. rewrite reconcile_reset, H; [apply indexKeys_S|].
    rewrite length_indexKeys. lia.
  - intros H. rewrite (indexKeys_take _ _ H).
    unfold FieldsetControl.reconcile. rewrite length_indexKeys.
    case_decide as E; [by rewrite E|done].
  - intros H. unfold FieldsetControl.reconcile. by rewrite H.
Qed.

Lemma C5_reconcile_by_length_witness :
  let two := [FieldsetControl.mkOptions "list[0]" None None;
              FieldsetControl.mkOptions "list[1]" None None] in
  let three := (two ++ [FieldsetControl.mkOptions "list[2]" (Some
                 (FieldsetControl.Leaf "x")) None])%list in
  FieldsetControl.reconcile three [0; 1; 7] = [0; 1; 7] /\
  FieldsetControl.reconcile three [1; 7] = [0; 1; 2] /\
  FieldsetControl.reconcile three (FieldsetControl.indexKeys 2) = [0; 1; 2] /\
  FieldsetControl.reconcile two (FieldsetControl.indexKeys 3) = [0; 1].
Proof.
  intros two three.
  destruct (C5_reconcile_by_length three three [0; 1; 7] 2)
    as (H1 & _ & H3 & _).
  destruct (C5_reconcile_by_length three three [1; 7] 2) as (_ & H2 & _).
  destruct (C5_reconcile_by_length two two [] 3) as (_ & _ & _ & H4 & _).
  split; [exact (H1 eq_refl)|].
  split; [apply H2; simpl; lia|].
  split; [exact (H3 eq_refl)|].
  apply H4. simpl. lia.
Defined.

(** C6: the scenario, run on the code. A fieldset ["list"] of count two
    gives the options [list[0]] and [list[1]] and the keys [[0; 1]]. After
    an append at time [1700000000000] there are three entries, the new one
    named [list[2]]. After the delete at position [0] there are two
    entries; the first keeps the key [1], but it is still named [list[1]],
    as is the second: the former second element is not renamed [list[0]]. *)
Theorem C6_append_remove_on_code :
  let now := 1700000000000 in
  let options :=
    [FieldsetControl.mkOptions "list[0]" None None;
     FieldsetControl.mkOptions "list[1]" None None] in
  let keys0 := FieldsetControl.initialKeys options in
  let keys1 := FieldsetControl.append now keys0 in
  let keys2 := FieldsetControl.remove 0 keys1 in
  FieldsetControl.getFieldProps (Some 2%nat) None "list" None None
    = FieldsetControl.Repeated options /\
  FieldsetControl.listName options = FieldsetControl.Ok "list" /\
  keys0 = [0; 1] /\
  keys1 = [0; 1; now] /\
  FieldsetControl.names (FieldsetControl.entries "list" options keys1)
    = ["list[0]"; "list[1]"; "list[2]"] /\
  keys2 = [1; now] /\
  FieldsetControl.names (FieldsetControl.entries "list" options keys2)
    = ["list[1]"; "list[1]"].
Proof. vm_compute. repeat split. Qed.

(** ** The naming check of the list control *)

Section Naming.

Import FieldsetControl.

Lemma truthy_true s : s <> EmptyString -> JS.truthy s = true.
Proof.
  intros H. unfold JS.truthy. apply negb_true_iff. by apply String.eqb_neq.
Qed.

(** Options that all have the parent name [p], reduced from a result that
    is empty or [p], never throw. *)
Lemma reduceName_agree p result options :
  result = EmptyString \/ result = p ->
  Forall (fun o => parentName o = p) options ->
  reduceName result options = Ok (if options is [] then result else p).
Proof.
  intros Hr Hall. revert result Hr.
  induction Hall as [|o rest Ho Hrest IH]; intros result Hr; [done|].
  simpl. rewrite Ho.
  assert (JS.truthy result && negb (String.eqb result p) = false) as ->.
  { destruct Hr as [-> | ->]; [done|].
    rewrite String.eqb_refl. apply andb_false_r. }
  rewrite (IH p) by (by right). by destruct rest.
Qed.

(** From a result that is not empty, an option with another parent name
    throws, provided no parent name before it is empty. *)
Lemma reduceName_disagree result options :
  result <> EmptyString ->
  Forall (fun o => parentName o <> EmptyString) options ->
  Exists (fun o => parentName o <> result) options ->
  reduceName result options = Throw inconsistentName.
Proof.
  intros Hr Hne. revert result Hr.
  induction Hne as [|o rest Ho Hrest IH]; intros result Hr Hex.
  - by apply Exists_nil in Hex.
  - simpl. rewrite (truthy_true _ Hr). simpl.
    destruct (String.eqb result (parentName o)) eqn:E; [|done].
    apply String.eqb_eq in E. simpl.
    apply IH; [done|].
    apply Exists_cons in Hex as [Hex|Hex]; [congruence|by rewrite <- E].
Qed.

Lemma agree_of_Forall p options :
  Forall (fun o => parentName o = p) options ->
  forall o1 o2, o1 ∈ options -> o2 ∈ options -> parentName o1 = parentName o2.
Proof.
  intros H o1 o2 H1 H2.
  rewrite Forall_forall in H. by rewrite (H o1 H1), (H o2 H2).
Qed.

End Naming.

(** C7, on the code: the options named ["[0]"] and ["b[0]"] have the
    parent names empty and ["b"], so they do not share a parent name, yet
    the naming check does not throw and the hook renders, with the list
    named ["b"]: after an empty parent name the next one is not compared.
    With the two options in the other order the hook throws. *)
Theorem C7_naming_check_on_code (keys : list Z) :
  let first := FieldsetControl.mkOptions "[0]" None None in
  let second := FieldsetControl.mkOptions "b[0]" None None in
  FieldsetControl.parentName first = EmptyString /\
  FieldsetControl.parentName second = "b" /\
  FieldsetControl.disagree [first; second] /\
  FieldsetControl.useFieldsetControl [first; second] keys
    = FieldsetControl.Ok
        (FieldsetControl.entries "b" [first; second] keys,
         FieldsetControl.mkButton "b" None true) /\
  FieldsetControl.useFieldsetControl [second; first] keys
    = FieldsetControl.Throw FieldsetControl.inconsistentName.
Proof.
  intros first second.
  split; [reflexivity|]. split; [reflexivity|].
  split; [|split; reflexivity].
  exists first, second.
  split; [apply list_elem_of_here|].
  split; [apply list_elem_of_further, list_elem_of_here|].
  by vm_compute.
Qed.

(** ** The invalid handler and the error mapping *)

Section InvalidHandler.

Import Fieldset.

Context {Field FieldConfig : Type}.
Variable getFieldConfig : option Field -> option FieldConfig.
Variable checkCustomValidity : ValidityState -> FieldConfig -> option string.
Variable fieldset : gmap string Field.

Abbreviation handler :=
  (onInvalid getFieldConfig checkCustomValidity fieldset).
Abbreviation messageOf := (Fieldset.messageOf checkCustomValidity).

Lemma setCustomValidity_twice m1 m2 e :
  setCustomValidity m2 (setCustomValidity m1 e) = setCustomValidity m2 e.
Proof. reflexivity. Qed.

Lemma name_setCustomValidity m e : name (setCustomValidity m e) = name e.
Proof. reflexivity. Qed.

Lemma name_settled e : name (settled e) = name e.
Proof. unfold settled. by destruct (String.eqb _ _). Qed.

Lemma settled_settled e : settled (settled e) = settled e.
Proof.
  unfold settled.
  destruct (String.eqb (validationMessage e) "valid") eqn:E.
  - by destruct (String.eqb (validationMessage (setCustomValidity EmptyString e))
                   "valid").
  - by rewrite E.
Qed.

Lemma onInvalid_missing e error :
  getFieldConfig (fieldset !! Path.getKey (name e)) = None ->
  handler e error
  = {| element := e; synthesized := None; update := None |}.
Proof. intros H. unfold onInvalid. by rewrite H. Qed.

Lemma onInvalid_config e error config :
  getFieldConfig (fieldset !! Path.getKey (name e)) = Some config ->
  handler e error
  = {| element := settled e;
       synthesized :=
         Some (Path.getKey (name e), messageOf config (settled e));
       update :=
         Some (errorUpdater (Path.getKey (name e))
                 (messageOf config (settled e)) error) |}.
Proof. intros H. unfold onInvalid. by rewrite H. Qed.

(** The element and the message do not depend on the error mapping. *)
Lemma onInvalid_element e error error' :
  element (handler e error) = element (handler e error').
Proof. unfold onInvalid. by destruct (getFieldConfig _). Qed.

Lemma onInvalid_synthesized e error error' :
  synthesized (handler e error) = synthesized (handler e error').
Proof. unfold onInvalid. by destruct (getFieldConfig _). Qed.

(** Running the handler on the element it left changes nothing more. *)
Lemma onInvalid_element_again e error error' :
  element (handler (element (handler e error)) error')
  = element (handler e error).
Proof.
  destruct (getFieldConfig (fieldset !! Path.getKey (name e))) as [c|] eqn:E.
  - rewrite (onInvalid_config e error c E). simpl.
    rewrite (onInvalid_config (settled e) error' c)
      by (by rewrite name_settled).
    simpl. apply settled_settled.
  - rewrite (onInvalid_missing e error E). simpl.
    by rewrite (onInvalid_missing e error' E).
Qed.

Lemma onInvalid_synthesized_again e error error' :
  synthesized (handler (element (handler e error)) error')
  = synthesized (handler e error).
Proof.
  destruct (getFieldConfig (fieldset !! Path.getKey (name e))) as [c|] eqn:E.
  - rewrite (onInvalid_config e error c E). simpl.
    rewrite (onInvalid_config (settled e) error' c)
      by (by rewrite name_settled).
    simpl. by rewrite settled_settled, name_settled.
  - rewrite (onInvalid_missing e error E). simpl.
    by rewrite (onInvalid_missing e error' E).
Qed.

Lemma commit_errorUpdater key message (error : gmap string string) :
  commit (Some (errorUpdater key message error)) error
  = <[key := message]> error.
Proof.
  unfold errorUpdater. case_decide as E; simpl; [|done].
  by rewrite insert_id.
Qed.

Lemma commit_onInvalid e error :
  commit (update (handler e error)) error
  = record (synthesized (handler e error)) error.
Proof.
  unfold onInvalid. destruct (getFieldConfig _); [|done].
  simpl. apply commit_errorUpdater.
Qed.

Lemma lookup_record said error k :
  record said error !! k
  = match said with
    | Some (key, message) =>
        if decide (key = k) then Some message else error !! k
    | None => error !! k
    end.
Proof.
  destruct said as [[key message]|]; [|done].
  simpl. rewrite lookup_insert. by case_decide.
Qed.

Lemma lookup_foldl_record (report : Report) error k :
  foldl (fun e said => record said e) error report !! k
  = match lastSaid report k with
    | Some m => Some m
    | None => error !! k
    end.
Proof.
  revert error. induction report as [|said rest IH]; intros error; [done|].
  simpl. rewrite IH, lookup_record.
  destruct (lastSaid rest k); [done|].
  destruct said as [[key message]|]; [|done]. by case_decide.
Qed.

Lemma foldl_record_twice (report : Report) error :
  foldl (fun e said => record said e)
        (foldl (fun e said => record said e) error report) report
  = foldl (fun e said => record said e) error report.
Proof.
  apply map_eq. intros k. rewrite !lookup_foldl_record.
  by destruct (lastSaid report k).
Qed.

(** The walk over the controls, in closed form. *)
Lemma checkControls_closed elements error :
  checkControls getFieldConfig checkCustomValidity fieldset elements error
  = (forallb (fun e => valid (validity (element (handler e ∅)))) elements,
     List.map (fun e => element (handler e ∅)) elements,
     foldl (fun e said => record said e) error
       (List.map (fun e => synthesized (handler e ∅)) elements),
     List.map (fun e => synthesized (handler e ∅)) elements).
Proof.
  revert error. induction elements as [|e rest IH]; intros error; [done|].
  simpl. unfold checkControl. rewrite IH, commit_onInvalid.
  by rewrite (onInvalid_element e error ∅),
             (onInvalid_synthesized e error ∅).
Qed.

End InvalidHandler.

Section Revalidation.

Import Fieldset.

Context {Field FieldConfig : Type}.
Variable getFieldConfig : option Field -> option FieldConfig.
Variable checkCustomValidity : ValidityState -> FieldConfig -> option string.
Variable fieldset : gmap string Field.

Abbreviation run :=
  (onInvalid getFieldConfig checkCustomValidity fieldset).

Lemma record_twice said (error : gmap string string) :
  record said (record said error) = record said error.
Proof.
  destruct said as [[key message]|]; [|done].
  simpl. apply insert_insert_eq.
Qed.

Lemma checkControl_closed e error :
  checkControl getFieldConfig checkCustomValidity fieldset e error
  = (valid (validity (element (run e ∅))), element (run e ∅),
     record (synthesized (run e ∅)) error, synthesized (run e ∅)).
Proof.
  unfold checkControl. rewrite commit_onInvalid.
  by rewrite (onInvalid_element _ _ _ e error ∅),
             (onInvalid_synthesized _ _ _ e error ∅).
Qed.

Lemma checkValidity_control_twice index s :
  let '(_, s1, report1) :=
    checkValidity getFieldConfig checkCustomValidity fieldset
      (Control index) s in
  let '(_, s2, report2) :=
    checkValidity getFieldConfig checkCustomValidity fieldset
      (Control index) s1 in
  report2 = report1 /\ s2 = s1.
Proof.
  unfold checkValidity.
  destruct (controls s !! index) as [e|] eqn:E.
  - rewrite checkControl_closed. cbv beta iota. cbn [controls errorMessage].
    rewrite list_lookup_insert_eq by (by apply lookup_lt_Some in E).
    rewrite checkControl_closed.
    rewrite onInvalid_element_again, onInvalid_synthesized_again.
    by rewrite record_twice, list_insert_insert_eq.
  - by rewrite E.
Qed.

Lemma checkValidity_form_twice s :
  let '(_, s1, report1) :=
    checkValidity getFieldConfig checkCustomValidity fieldset Form s in
  let '(_, s2, report2) :=
    checkValidity getFieldConfig checkCustomValidity fieldset Form s1 in
  report2 = report1 /\ s2 = s1.
Proof.
  unfold checkValidity. rewrite checkControls_closed. simpl.
  rewrite checkControls_closed.
  rewrite !List.map_map.
  assert (List.map (fun e => synthesized (run (element (run e ∅)) ∅))
            (controls s)
          = List.map (fun e => synthesized (run e ∅)) (controls s)) as ->.
  { apply List.map_ext. intros e. apply onInvalid_synthesized_again. }
  assert (List.map (fun e => element (run (element (run e ∅)) ∅))
            (controls s)
          = List.map (fun e => element (run e ∅)) (controls s)) as ->.
  { apply List.map_ext. intros e. apply onInvalid_element_again. }
  by rewrite foldl_record_twice.
Qed.

End Revalidation.




(** Two runs over a form of the marked and the empty control: the first run
    clears the mark and files the message of the empty control, which comes
    last; the second run says the same and changes nothing. *)
Example revalidate_sample :
  let s := Fieldset.mkForm [Sample.marked; Sample.empty] ∅ in
  let first := Fieldset.checkValidity Sample.getFieldConfig
                 Sample.checkCustomValidity Sample.fieldset Fieldset.Form s in
  let second := Fieldset.checkValidity Sample.getFieldConfig
                  Sample.checkCustomValidity Sample.fieldset Fieldset.Form
                  (snd (fst first)) in
  snd first = [Some ("email", EmptyString);
               Some ("email", "Email is required")] /\
  Fieldset.errorMessage (snd (fst first)) !! "email"
    = Some "Email is required" /\
  Fieldset.customValidity <$> Fieldset.controls (snd (fst first))
    = [EmptyString; EmptyString] /\
  second = (false, snd (fst first), snd first).
Proof. by vm_compute. Qed.

(** C9: running [checkValidity] twice in a row on the same target, with
    nothing changed in between, synthesises the same key and message for
    every evaluated control both times, and the second run leaves the
    controls and the error mapping as the first run left them. *)
Theorem C9_revalidation_idempotent
    {Field FieldConfig : Type}
    (getFieldConfig : option Field -> option FieldConfig)
    (checkCustomValidity : Fieldset.ValidityState -> FieldConfig
                           -> option string)
    (fieldset : gmap string Field)
    (target : Fieldset.Target) (s : Fieldset.FormState) :
  let '(_, s1, report1) :=
    Fieldset.checkValidity getFieldConfig checkCustomValidity fieldset
      target s in
  let '(_, s2, report2) :=
    Fieldset.checkValidity getFieldConfig checkCustomValidity fieldset
      target s1 in
  report2 = report1 /\
  Fieldset.errorMessage s2 = Fieldset.errorMessage s1 /\
  s2 = s1.
Proof.
  destruct target as [index|].
  - pose proof (checkValidity_control_twice getFieldConfig
                  checkCustomValidity fieldset index s) as H.
    destruct (Fieldset.checkValidity _ _ _ (Fieldset.Control index) s)
      as [[ok1 s1] report1].
    destruct (Fieldset.checkValidity _ _ _ (Fieldset.Control index) s1)
      as [[ok2 s2] report2].
    destruct H as [-> ->]. done.
  - pose proof (checkValidity_form_twice getFieldConfig
                  checkCustomValidity fieldset s) as H.
    destruct (Fieldset.checkValidity _ _ _ Fieldset.Form s)
      as [[ok1 s1] report1].
    destruct (Fieldset.checkValidity _ _ _ Fieldset.Form s1)
      as [[ok2 s2] report2].
    destruct H as [-> ->]. done.
Qed.

(** C10: one run of the invalid handler on a control changes at most the
    entry of the control's own key in the error mapping. Every other key
    reads as before; a synthesised message is filed under the control's own
    key; when that message is the one already stored there, the updater
    hands back the mapping it was given, and otherwise a mapping with that
    one entry written; when nothing is synthesised, no update is asked
    for. *)
Theorem C10_error_frame
    {Field FieldConfig : Type}
    (getFieldConfig : option Field -> option FieldConfig)
    (checkCustomValidity : Fieldset.ValidityState -> FieldConfig
                           -> option string)
    (fieldset : gmap string Field)
    (e : Fieldset.HTMLInputElement) (error : gmap string string) :
  let o := Fieldset.onInvalid getFieldConfig checkCustomValidity fieldset
             e error in
  let own := Path.getKey (Fieldset.name e) in
  (forall k, k <> own ->
     Fieldset.commit (Fieldset.update o) error !! k = error !! k) /\
  (forall k message, Fieldset.synthesized o = Some (k, message) ->
     k = own /\
     Fieldset.commit (Fieldset.update o) error !! own = Some message /\
     (error !! own = Some message ->
        Fieldset.update o = Some Fieldset.Same) /\
     (error !! own <> Some message ->
        Fieldset.update o
          = Some (Fieldset.Fresh (<[own := message]> error)))) /\
  (Fieldset.synthesized o = None -> Fieldset.update o = None).
Proof.
  intros o own. subst o own.
  destruct (getFieldConfig (fieldset !! Path.getKey (Fieldset.name e)))
    as [config|] eqn:E.
  - rewrite (onInvalid_config _ _ _ e error config E).
    cbn [Fieldset.update Fieldset.synthesized].
    split; [|split; [|done]].
    + intros k Hk. rewrite commit_errorUpdater. by rewrite lookup_insert_ne.
    + intros k message [= <- <-].
      split; [done|].
      split; [by rewrite commit_errorUpdater, lookup_insert_eq|].
      unfold Fieldset.errorUpdater.
      split; intros H; case_decide; done.
  - rewrite (onInvalid_missing _ _ _ e error E).
    cbn [Fieldset.update Fieldset.synthesized].
    split; [done|]. split; [|done]. intros k message H. discriminate H.
Qed.

Lemma C10_error_frame_witness :
  let error : gmap string string :=
    {[ "email" := "Email is required"; "city" := "Too short" ]} in
  let o := Fieldset.onInvalid Sample.getFieldConfig
             Sample.checkCustomValidity Sample.fieldset Sample.empty error in
  Fieldset.synthesized o = Some ("email", "Email is required") /\
  Fieldset.update o = Some Fieldset.Same /\
  Fieldset.commit (Fieldset.update o) error !! "city" = Some "Too short".
Proof.
  intros error o.
  destruct (C10_error_frame Sample.getFieldConfig Sample.checkCustomValidity
              Sample.fieldset Sample.empty error) as (H1 & H2 & _).
  destruct (H2 "email" "Email is required" eq_refl) as (_ & _ & H3 & _).
  split; [reflexivity|].
  split; [exact (H3 eq_refl)|].
  transitivity (error !! "city"); [apply H1; discriminate|reflexivity].
Defined.

(** ** More on names and keys *)

Section MoreStringFacts.

Lemma substring_app_skip a b n m :
  substring (String.length a + n) m (a +:+ b) = substring n m b.
Proof. induction a as [|x a IH]; [done|]. simpl. apply IH. Qed.

Lemma substring_prefix a b : substring 0 (String.length a) (a +:+ b) = a.
Proof.
  induction a as [|x a IH]; simpl; [by destruct b|].
  by rewrite IH.
Qed.

(** [slice] from a position past a prefix is [slice] in the rest. *)
Lemma slice_app_skip a b k :
  0 <= k ->
  JS.slice (a +:+ b) (Z.of_nat (String.length a) + k) None = JS.slice b k None.
Proof.
  intros Hk. unfold JS.slice, JS.clampIndex. rewrite length_app_string.
  destruct (Z.of_nat (String.length a) + k <? 0) eqn:E1;
    [apply Z.ltb_lt in E1; lia|].
  destruct (k <? 0) eqn:E2; [apply Z.ltb_lt in E2; lia|].
  destruct (Z.le_gt_cases k (Z.of_nat (String.length b))) as [Hle|Hgt].
  - rewrite !Z.min_l by lia.
    destruct (k <? Z.of_nat (String.length b)) eqn:E3.
    + apply Z.ltb_lt in E3.
      destruct (Z.of_nat (String.length a) + k
                <? Z.of_nat (String.length a + String.length b)) eqn:E4;
        [|apply Z.ltb_ge in E4; lia].
      replace (Z.to_nat (Z.of_nat (String.length a) + k))
        with (String.length a + Z.to_nat k)%nat by lia.
      rewrite substring_app_skip. f_equal. lia.
    + apply Z.ltb_ge in E3.
      destruct (Z.of_nat (String.length a) + k
                <? Z.of_nat (String.length a + String.length b)) eqn:E4;
        [apply Z.ltb_lt in E4; lia|done].
  - rewrite !Z.min_r by lia.
    rewrite !Z.ltb_irrefl. done.
Qed.

Lemma slice_cons x r k :
  0 <= k -> JS.slice (String x r) (k + 1) None = JS.slice r k None.
Proof.
  intros Hk.
  change (String x r) with (String x EmptyString +:+ r).
  replace (k + 1) with (Z.of_nat (String.length (String x EmptyString)) + k)
    by (simpl; lia).
  by apply slice_app_skip.
Qed.

(** A prefix, cut out by [slice(0, length)]. *)
Lemma slice_prefix a b :
  JS.slice (a +:+ b) 0 (Some (Z.of_nat (String.length a))) = a.
Proof.
  unfold JS.slice, JS.clampIndex. rewrite length_app_string.
  change (0 <? 0) with false. cbv iota.
  destruct (Z.of_nat (String.length a) <? 0) eqn:E1;
    [apply Z.ltb_lt in E1; lia|].
  rewrite !Z.min_l by lia.
  destruct (0 <? Z.of_nat (String.length a)) eqn:E2.
  - rewrite Z.sub_0_r, Nat2Z.id. apply substring_prefix.
  - apply Z.ltb_ge in E2. destruct a; [done|simpl in E2; lia].
Qed.

(** The last occurrence in [a ++ b] lies in [b] when [b] holds the needle. *)
Lemma lastIndexOf_app_present c a b :
  JS.includes c b = true ->
  JS.lastIndexOf c (a +:+ b)
  = Z.of_nat (String.length a) + JS.lastIndexOf c b.
Proof.
  intros Hb. pose proof (lastIndexOf_present c b Hb) as Hp.
  induction a as [|x a IH];
    [change (EmptyString +:+ b) with b; simpl String.length; lia|].
  rewrite app_string_cons. simpl JS.lastIndexOf. rewrite IH.
  destruct (0 <=? Z.of_nat (String.length a) + JS.lastIndexOf c b) eqn:E.
  - simpl String.length. lia.
  - apply Z.leb_gt in E. lia.
Qed.

(** A name that holds the needle splits at its last occurrence. *)
Lemma split_at_last c s :
  JS.includes c s = true ->
  exists p, s = p +:+ String c (JS.slice s (JS.lastIndexOf c s + 1) None).
Proof.
  induction s as [|a r IH]; [done|].
  intros H. simpl JS.lastIndexOf.
  destruct (JS.includes c r) eqn:Hr.
  - pose proof (lastIndexOf_present c r Hr) as Hp.
    destruct (0 <=? JS.lastIndexOf c r) eqn:E; [|apply Z.leb_gt in E; lia].
    destruct (IH eq_refl) as [p Hp'].
    exists (String a p). rewrite slice_cons by lia.
    rewrite app_string_cons. by rewrite <- Hp'.
  - rewrite (lastIndexOf_absent c r Hr).
    simpl in H. rewrite Hr in H.
    destruct (Ascii.eqb a c) eqn:Ea; [|done].
    apply Ascii.eqb_eq in Ea. subst a.
    exists EmptyString. change (0 <=? -1) with false. cbv iota.
    rewrite (slice_cons c r 0) by lia. by rewrite slice_whole.
Qed.

End MoreStringFacts.

(** X1: the key recovered from the name of a field is the last segment of
    the field's own key, whatever the parent: a parent never shows in the
    key, and a key is recovered whole exactly when [getKey] leaves it
    alone. *)
Theorem X1_getKey_ignores_parent (parent : option string) (key : string) :
  Path.getKey (Path.fieldName parent key) = Path.getKey key.
Proof.
  unfold Path.fieldName.
  destruct parent as [p|]; [|done].
  destruct (JS.truthy p); [|done].
  destruct (JS.includes "." key) eqn:E.
  - unfold Path.getKey.
    rewrite <- app_string_assoc.
    rewrite (lastIndexOf_app_present _ _ _ E).
    rewrite <- Z.add_assoc.
    apply slice_app_skip.
    pose proof (lastIndexOf_present _ _ E). lia.
  - by rewrite getKey_nested, getKey_plain.
Qed.

(** X2: [getKey] returns the name itself when the name holds no ["."], and
    otherwise what follows its last ["."]; the key it returns holds no
    ["."], so taking the key of a key changes nothing. *)
Theorem X2_getKey_last_segment (name : string) :
  (JS.includes "." name = false -> Path.getKey name = name) /\
  (JS.includes "." name = true ->
     exists prefix, name = prefix +:+ "." +:+ Path.getKey name) /\
  JS.includes "." (Path.getKey name) = false /\
  Path.getKey (Path.getKey name) = Path.getKey name.
Proof.
  split; [apply getKey_plain|].
  split; [apply split_at_last|].
  split; [apply getKey_dot_free|].
  apply getKey_plain, getKey_dot_free.
Qed.

Lemma X2_getKey_last_segment_witness :
  Path.getKey "city" = "city" /\
  exists prefix,
    "tasks[0].address.city"
    = prefix +:+ "." +:+ Path.getKey "tasks[0].address.city".
Proof.
  destruct (X2_getKey_last_segment "city") as (H1 & _).
  destruct (X2_getKey_last_segment "tasks[0].address.city") as (_ & H2 & _).
  split; [exact (H1 eq_refl)|exact (H2 eq_refl)].
Defined.

(** ** More on the list control *)

Section MoreListControl.

Import FieldsetControl.

(** Decimal digits hold no bracket. *)
Lemma digits_no_bracket (d : Decimal.uint) :
  JS.includes "[" (NilEmpty.string_of_uint d) = false.
Proof. induction d; simpl; done. Qed.

Lemma numberToString_inj (i j : nat) :
  JS.numberToString i = JS.numberToString j -> i = j.
Proof.
  unfold JS.numberToString. intros H.
  apply (f_equal NilEmpty.uint_of_string) in H.
  rewrite !NilEmpty.usu in H. injection H as H.
  apply (f_equal Nat.of_uint) in H. by rewrite !Unsigned.of_to in H.
Qed.

Lemma app_string_inj_l a b c : a +:+ b = a +:+ c -> b = c.
Proof.
  induction a as [|x a IH]; [done|].
  rewrite !app_string_cons. intros [= H]. by apply IH.
Qed.

Lemma app_string_inj_r a b c : a +:+ c = b +:+ c -> a = b.
Proof.
  revert b. induction a as [|x a IH]; intros b H.
  - destruct b as [|y b]; [done|].
    apply (f_equal String.length) in H.
    rewrite !length_app_string in H. simpl in H. lia.
  - destruct b as [|y b].
    + apply (f_equal String.length) in H.
      rewrite !length_app_string in H. simpl in H. lia.
    + rewrite !app_string_cons in H. injection H as -> H.
      by rewrite (IH b H).
Qed.

Lemma indexedName_inj name i j :
  Path.indexedName name i = Path.indexedName name j -> i = j.
Proof.
  unfold Path.indexedName. intros H.
  apply app_string_inj_l, app_string_inj_l, app_string_inj_r in H.
  by apply numberToString_inj.
Qed.

Lemma parentName_indexedName name index v e :
  parentName (mkOptions (Path.indexedName name index) v e) = name.
Proof.
  unfold parentName, Path.indexedName. cbn [FieldsetControl.name].
  change ("[" +:+ JS.numberToString index +:+ "]")
    with (String "[" (JS.numberToString index +:+ "]")).
  rewrite lastIndexOf_app_sep.
  - apply slice_prefix.
  - rewrite includes_app. unfold JS.numberToString.
    by rewrite digits_no_bracket.
Qed.

(** [options[key]] is the option at position [key] when [key] is a position
    of the array, and nothing otherwise. *)
Lemma at_index_of_nat options (i : nat) :
  at_index options (Z.of_nat i) = options !! i.
Proof.
  revert i. induction options as [|o rest IH]; intros i; [done|].
  destruct i as [|i]; [done|].
  simpl at_index.
  destruct (Z.of_nat (S i) =? 0) eqn:E1; [apply Z.eqb_eq in E1; lia|].
  destruct (Z.of_nat (S i) <? 0) eqn:E2; [apply Z.ltb_lt in E2; lia|].
  replace (Z.of_nat (S i) - 1) with (Z.of_nat i) by lia. apply IH.
Qed.

Lemma at_index_outside options key :
  key < 0 \/ Z.of_nat (length options) <= key -> at_index options key = None.
Proof.
  intros [H|H].
  - destruct options as [|o rest]; [done|]. simpl.
    destruct (key =? 0) eqn:E1; [apply Z.eqb_eq in E1; lia|].
    destruct (key <? 0) eqn:E2; [done|apply Z.ltb_ge in E2; lia].
  - replace key with (Z.of_nat (Z.to_nat key)) by lia.
    rewrite at_index_of_nat. apply lookup_ge_None. lia.
Qed.

Lemma lookup_indexKeys n i :
  indexKeys n !! i = if decide (i < n)%nat then Some (Z.of_nat i) else None.
Proof.
  unfold indexKeys.
  change (List.map Z.of_nat (seq 0 n)) with (Z.of_nat <$> seq 0 n).
  rewrite list_lookup_fmap. case_decide.
  - by rewrite lookup_seq_lt.
  - rewrite lookup_seq_ge; [done|lia].
Qed.

Lemma remove_delete index (keys : list Z) : remove index keys = delete index keys.
Proof. unfold remove. by rewrite delete_take_drop. Qed.

(** The parent name [reduce] ends on is that of the last option. *)
Lemma reduceName_last result options n :
  reduceName result options = Ok n ->
  n = match last options with
      | Some o => parentName o
      | None => result
      end.
Proof.
  revert result. induction options as [|o rest IH]; intros result H.
  - by injection H as ->.
  - simpl in H.
    destruct (JS.truthy result && negb (String.eqb result (parentName o)));
      [done|].
    apply IH in H. rewrite H, last_cons. by destruct (last rest).
Qed.

(** [reduce] throws exactly at the first option that differs from a
    parent name held so far that is not empty. *)
Lemma reduceName_throws result options :
  reduceName result options = Throw inconsistentName <->
  (result <> EmptyString /\
   exists o, head options = Some o /\ result <> parentName o) \/
  (exists i o1 o2, options !! i = Some o1 /\ options !! S i = Some o2 /\
     parentName o1 <> EmptyString /\ parentName o1 <> parentName o2).
Proof.
  revert result. induction options as [|o rest IH]; intros result.
  - simpl. split; [done|].
    intros [(_ & o & H & _)|(i & o1 & o2 & H & _)]; done.
  - simpl reduceName.
    destruct (JS.truthy result && negb (String.eqb result (parentName o)))
      eqn:E.
    + split; [|done]. intros _. left.
      apply andb_true_iff in E as [E1 E2].
      apply negb_true_iff in E1, E2.
      apply String.eqb_neq in E1, E2. split; [done|]. by exists o.
    + rewrite IH. split.
      * intros [(Hne & o' & Ho' & Hd)|(i & o1 & o2 & H1 & H2 & H3)].
        -- right. exists 0%nat, o, o'. destruct rest; [done|].
           simpl in Ho'. injection Ho' as ->. done.
        -- right. by exists (S i), o1, o2.
      * intros [(Hne & o' & Ho' & Hd)|(i & o1 & o2 & H1 & H2 & H3 & H4)].
        -- exfalso. simpl in Ho'. injection Ho' as <-.
           apply andb_false_iff in E as [E|E].
           ++ apply negb_false_iff, String.eqb_eq in E. done.
           ++ apply negb_false_iff, String.eqb_eq in E. done.
        -- destruct i as [|i].
           ++ left. simpl in H1. injection H1 as <-.
              split; [done|]. exists o2. split; [|done].
              by destruct rest.
           ++ right. by exists i, o1, o2.
Qed.

End MoreListControl.

(** X3: the name of a list element, [`${name}[${index}]`], gives back the
    list's name as its parent name, whatever the list's name is, and two
    positions never share a name. *)
Theorem X3_indexed_name_parent
    (name : string) (i j : nat) (v e : option FieldsetControl.Data) :
  FieldsetControl.parentName
    (FieldsetControl.mkOptions (Path.indexedName name i) v e) = name /\
  (Path.indexedName name i = Path.indexedName name j -> i = j).
Proof. split; [apply parentName_indexedName|apply indexedName_inj]. Qed.

Lemma X3_indexed_name_parent_witness :
  FieldsetControl.parentName
    (FieldsetControl.mkOptions (Path.indexedName "a.tasks[2].steps" 10)
       None None) = "a.tasks[2].steps" /\
  Path.indexedName "tasks" 7 = "tasks[7]" /\
  (3 + 4 = 7)%nat.
Proof.
  split; [|split; [reflexivity|]].
  - apply (X3_indexed_name_parent "a.tasks[2].steps" 10 10 None None).
  - apply (X3_indexed_name_parent "tasks" (3 + 4) 7 None None).
    reflexivity.
Defined.

(** X4: for a fieldset field with a count, [getFieldProps] returns that many
    options; the one at position [i] is named after the field's name and
    [i], and no two of them share a name. *)
Theorem X4_getFieldProps_repeated
    (count : nat) (parent : option string) (key : string)
    (value error : option FieldsetControl.Data) :
  exists options,
    FieldsetControl.getFieldProps (Some count) parent key value error
      = FieldsetControl.Repeated options /\
    length options = count /\
    List.map FieldsetControl.name options
      = List.map (Path.indexedName (Path.fieldName parent key))
          (seq 0 count) /\
    NoDup (List.map FieldsetControl.name options).
Proof.
  eexists. split; [reflexivity|].
  split; [by rewrite length_map, length_seq|].
  rewrite List.map_map. cbn [FieldsetControl.name].
  split; [reflexivity|].
  apply NoDup_fmap_2_strong; [|apply NoDup_seq].
  intros i j _ _ H. by apply indexedName_inj in H.
Qed.

(** X5: the options [getFieldProps] returns for a fieldset field with a
    count pass the naming check of the list control: every render succeeds,
    and the list is named after the field (the empty name when the count is
    zero). *)
Theorem X5_generated_options_accepted
    (count : nat) (parent : option string) (key : string)
    (value error : option FieldsetControl.Data)
    (options : list FieldsetControl.FieldsetOptions) (keys : list Z) :
  FieldsetControl.getFieldProps (Some count) parent key value error
    = FieldsetControl.Repeated options ->
  let name := match count with
              | O => EmptyString
              | S _ => Path.fieldName parent key
              end in
  FieldsetControl.listName options = FieldsetControl.Ok name /\
  FieldsetControl.useFieldsetControl options keys
    = FieldsetControl.Ok
        (FieldsetControl.entries name options keys,
         FieldsetControl.mkButton name None true).
Proof.
  intros H name. injection H as <-.
  assert (FieldsetControl.listName
            (List.map
               (fun index =>
                  FieldsetControl.mkOptions
                    (Path.indexedName (Path.fieldName parent key) index)
                    (FieldsetControl.at_key
                       (FieldsetControl.at_key value key)
                       (JS.numberToString index))
                    (FieldsetControl.at_key
                       (FieldsetControl.at_key error key)
                       (JS.numberToString index)))
               (seq 0 count))
          = FieldsetControl.Ok name) as Hn.
  { unfold FieldsetControl.listName.
    rewrite (reduceName_agree (Path.fieldName parent key)).
    - subst name. by destruct count.
    - by left.
    - apply Forall_forall. intros o Ho.
      apply list_elem_of_In, in_map_iff in Ho as (i & <- & _).
      apply parentName_indexedName. }
  split; [exact Hn|].
  unfold FieldsetControl.useFieldsetControl.
  cbn [FieldsetControl.name FieldsetControl.value FieldsetControl.error].
  by rewrite Hn.
Qed.

Lemma X5_generated_options_accepted_witness :
  FieldsetControl.listName
    [FieldsetControl.mkOptions "order.items[0]" None None;
     FieldsetControl.mkOptions "order.items[1]" None None]
  = FieldsetControl.Ok "order.items".
Proof.
  apply (X5_generated_options_accepted 2 (Some "order") "items" None None
           _ [] eq_refl).
Defined.

(** X6: for an option whose name holds no ["["], the parent name is the
    name without its last character. *)
Theorem X6_parentName_without_bracket (o : FieldsetControl.FieldsetOptions) :
  JS.includes "[" (FieldsetControl.name o) = false ->
  FieldsetControl.parentName o
  = substring 0 (String.length (FieldsetControl.name o) - 1)
      (FieldsetControl.name o).
Proof.
  intros H. unfold FieldsetControl.parentName.
  rewrite (lastIndexOf_absent _ _ H).
  unfold JS.slice, JS.clampIndex.
  change (0 <? 0) with false. change (-1 <? 0) with true. cbv iota.
  rewrite Z.min_l by lia.
  destruct (FieldsetControl.name o) as [|x s]; [done|].
  simpl String.length.
  destruct (0 <? (Z.of_nat (S (String.length s)) + -1) `max` 0) eqn:E.
  - f_equal. lia.
  - apply Z.ltb_ge in E.
    replace (S (String.length s) - 1)%nat with 0%nat by lia. done.
Qed.

Lemma X6_parentName_without_bracket_witness :
  FieldsetControl.parentName (FieldsetControl.mkOptions "address" None None)
  = "addres".
Proof.
  apply (X6_parentName_without_bracket
           (FieldsetControl.mkOptions "address" None None)).
  reflexivity.
Defined.

(** X7: the naming check throws exactly when some option with a parent name
    that is not empty is followed by an option with another parent name;
    when it does not throw, the list is named after its last option (the
    empty name for no options). *)
Theorem X7_listName_outcome
    (options : list FieldsetControl.FieldsetOptions) :
  (FieldsetControl.listName options
     = FieldsetControl.Throw FieldsetControl.inconsistentName <->
   exists i o1 o2,
     options !! i = Some o1 /\ options !! S i = Some o2 /\
     FieldsetControl.parentName o1 <> EmptyString /\
     FieldsetControl.parentName o1 <> FieldsetControl.parentName o2) /\
  (forall name,
     FieldsetControl.listName options = FieldsetControl.Ok name ->
     name = match last options with
            | Some o => FieldsetControl.parentName o
            | None => EmptyString
            end).
Proof.
  split.
  - unfold FieldsetControl.listName. rewrite reduceName_throws.
    split; [|by right]. intros [(H & _)|H]; done.
  - intros name. apply reduceName_last.
Qed.

Lemma X7_listName_outcome_witness :
  FieldsetControl.listName
    [FieldsetControl.mkOptions "a[0]" None None;
     FieldsetControl.mkOptions "a[1]" None None;
     FieldsetControl.mkOptions "b[2]" None None]
  = FieldsetControl.Throw FieldsetControl.inconsistentName /\
  "b" = match last [FieldsetControl.mkOptions "[0]" None None;
                    FieldsetControl.mkOptions "b[1]" None None] with
        | Some o => FieldsetControl.parentName o
        | None => EmptyString
        end.
Proof.
  split.
  - apply (X7_listName_outcome
             [FieldsetControl.mkOptions "a[0]" None None;
              FieldsetControl.mkOptions "a[1]" None None;
              FieldsetControl.mkOptions "b[2]" None None]).
    exists 1%nat, (FieldsetControl.mkOptions "a[1]" None None),
           (FieldsetControl.mkOptions "b[2]" None None).
    repeat split; by vm_compute.
  - apply (X7_listName_outcome
             [FieldsetControl.mkOptions "[0]" None None;
              FieldsetControl.mkOptions "b[1]" None None]).
    reflexivity.
Defined.

Lemma entries_on_index_keys
    (name : string) (options : list FieldsetControl.FieldsetOptions) :
  List.map FieldsetControl.options
    (FieldsetControl.entries name options
       (FieldsetControl.indexKeys (length options))) = options.
Proof.
  unfold FieldsetControl.entries.
  change (List.map FieldsetControl.options ?l)
    with (FieldsetControl.options <$> l).
  apply list_eq. intros i.
  rewrite list_lookup_fmap, list_lookup_imap, lookup_indexKeys.
  case_decide as Hi.
  - simpl. rewrite at_index_of_nat.
    destruct (lookup_lt_is_Some_2 options i Hi) as [o Ho].
    by rewrite Ho.
  - simpl. symmetry. apply lookup_ge_None. lia.
Qed.

Lemma keys_of_entries name options (keys : list Z) :
  List.map FieldsetControl.key (FieldsetControl.entries name options keys)
  = keys.
Proof.
  unfold FieldsetControl.entries.
  change (List.map FieldsetControl.key ?l) with (FieldsetControl.key <$> l).
  apply list_eq. intros i.
  rewrite list_lookup_fmap, list_lookup_imap.
  by destruct (keys !! i).
Qed.

(** X8: on mount, and whenever the keys are the positions of the options,
    the entries carry exactly the options handed in, in order, under the
    keys [0 .. n-1]; the fallback name is not used. *)
Theorem X8_entries_on_index_keys
    (name : string) (options : list FieldsetControl.FieldsetOptions) :
  let es := FieldsetControl.entries name options
              (FieldsetControl.initialKeys options) in
  List.map FieldsetControl.options es = options /\
  List.map FieldsetControl.key es
    = FieldsetControl.indexKeys (length options).
Proof.
  intros es. subst es.
  split; [apply entries_on_index_keys|apply keys_of_entries].
Qed.

(** X9: a click on the add button at a time that is no position of the
    options leaves the entries rendered so far as they were and adds one
    entry after them: keyed by the time, named after the list and the new
    position, with no value and no error, and with a delete button for
    that position. *)
Theorem X9_append_adds_last_entry
    (name : string) (options : list FieldsetControl.FieldsetOptions)
    (keys : list Z) (now : Z) :
  now < 0 \/ Z.of_nat (length options) <= now ->
  FieldsetControl.entries name options (FieldsetControl.append now keys)
  = (FieldsetControl.entries name options keys
     ++ [FieldsetControl.mkEntry now
           (FieldsetControl.mkOptions
              (Path.indexedName name (length keys)) None None)
           (FieldsetControl.mkButton name (Some (length keys)) true)])%list.
Proof.
  intros H. unfold FieldsetControl.entries, FieldsetControl.append.
  rewrite imap_app. simpl.
  rewrite (at_index_outside _ _ H). by rewrite Nat.add_0_r.
Qed.

Lemma X9_append_adds_last_entry_witness :
  FieldsetControl.names
    (FieldsetControl.entries "list"
       [FieldsetControl.mkOptions "list[0]" None None]
       (FieldsetControl.append 1700000000000 [0; 0]))
  = ["list[0]"; "list[0]"; "list[2]"].
Proof.
  rewrite (X9_append_adds_last_entry "list"
             [FieldsetControl.mkOptions "list[0]" None None] [0; 0]
             1700000000000);
    [reflexivity|right; simpl; lia].
Defined.

(** X10: a click on a delete button takes the key at that position out and
    leaves the other keys in their order: keys before the position stay
    where they are, keys after it move up by one; a position past the end
    takes nothing out; deleting the key just appended gives back the keys
    held before. *)
Theorem X10_remove_by_position (index : nat) (keys : list Z) (now : Z) :
  (forall j, FieldsetControl.remove index keys !! j
             = keys !! (if decide (j < index)%nat then j else S j)) /\
  ((index < length keys)%nat ->
     S (length (FieldsetControl.remove index keys)) = length keys) /\
  ((length keys <= index)%nat -> FieldsetControl.remove index keys = keys) /\
  FieldsetControl.remove (length keys) (FieldsetControl.append now keys)
    = keys /\
  (NoDup keys -> NoDup (FieldsetControl.remove index keys)).
Proof.
  split; [intros j; rewrite remove_delete; apply list_lookup_delete|].
  split.
  { intros H. rewrite remove_delete.
    rewrite length_delete by (by apply lookup_lt_is_Some_2). lia. }
  split.
  { intros H. unfold FieldsetControl.remove.
    rewrite take_ge, drop_ge by lia. by rewrite app_nil_r. }
  split.
  { unfold FieldsetControl.remove, FieldsetControl.append.
    rewrite take_app_length. rewrite drop_ge by (rewrite length_app; simpl; lia).
    by rewrite app_nil_r. }
  intros H. rewrite remove_delete.
  eapply sublist_NoDup; [exact H|apply sublist_delete].
Qed.

Lemma X10_remove_by_position_witness :
  FieldsetControl.remove 1 [0; 1; 1700000000000] = [0; 1700000000000] /\
  FieldsetControl.remove 5 [0; 1] = [0; 1] /\
  NoDup (FieldsetControl.remove 0 [4; 5]).
Proof.
  destruct (X10_remove_by_position 5 [0; 1] 0) as (_ & _ & H3 & _).
  destruct (X10_remove_by_position 0 [4; 5] 0) as (_ & _ & _ & _ & H5).
  split; [reflexivity|]. split; [apply H3; simpl; lia|].
  apply H5. by apply (bool_decide_unpack _).
Defined.

(** X11: after a delete at a position of the initial keys, the entries are
    the options handed in without the one at that position, under their
    original keys: each surviving entry keeps its own option, with the name,
    value and error the option had. *)
Theorem X11_remove_keeps_options
    (name : string) (options : list FieldsetControl.FieldsetOptions)
    (index : nat) :
  let es := FieldsetControl.entries name options
              (FieldsetControl.remove index
                 (FieldsetControl.initialKeys options)) in
  List.map FieldsetControl.options es = delete index options /\
  List.map FieldsetControl.key es
    = delete index (FieldsetControl.indexKeys (length options)).
Proof.
  intros es. subst es. unfold FieldsetControl.entries.
  rewrite remove_delete. unfold FieldsetControl.initialKeys. split.
  - change (List.map FieldsetControl.options ?l)
      with (FieldsetControl.options <$> l).
    apply list_eq. intros j.
    rewrite list_lookup_fmap, list_lookup_imap, !list_lookup_delete.
    rewrite lookup_indexKeys.
    set (j' := if decide (j < index)%nat then j else S j).
    case_decide as Hj.
    + simpl. rewrite at_index_of_nat.
      destruct (lookup_lt_is_Some_2 options j' Hj) as [o Ho].
      by rewrite Ho.
    + simpl. symmetry. apply lookup_ge_None. lia.
  - apply keys_of_entries.
Qed.

(** X12: after the effect the keys are as many as the options; running the
    effect again changes nothing; the initial keys pass it unchanged; and
    when it replaced the keys, the entries are the options handed in, in
    order. *)
Theorem X12_reconcile_settles
    (name : string) (options : list FieldsetControl.FieldsetOptions)
    (keys : list Z) :
  let keys' := FieldsetControl.reconcile options keys in
  length keys' = length options /\
  FieldsetControl.reconcile options keys' = keys' /\
  FieldsetControl.reconcile options (FieldsetControl.initialKeys options)
    = FieldsetControl.initialKeys options /\
  (length keys <> length options ->
   List.map FieldsetControl.options
     (FieldsetControl.entries name options keys') = options).
Proof.
  intros keys'. subst keys'.
  split; [apply length_reconcile|].
  split; [apply reconcile_same, length_reconcile|].
  split; [apply reconcile_same, length_indexKeys|].
  intros H. rewrite (reconcile_reset _ _ H).
  apply entries_on_index_keys.
Qed.

Lemma X12_reconcile_settles_witness :
  List.map FieldsetControl.options
    (FieldsetControl.entries "list"
       [FieldsetControl.mkOptions "list[0]" None None;
        FieldsetControl.mkOptions "list[1]" None None]
       (FieldsetControl.reconcile
          [FieldsetControl.mkOptions "list[0]" None None;
           FieldsetControl.mkOptions "list[1]" None None]
          [1; 1700000000000; 1700000000001]))
  = [FieldsetControl.mkOptions "list[0]" None None;
     FieldsetControl.mkOptions "list[1]" None None].
Proof.
  apply (X12_reconcile_settles "list"
           [FieldsetControl.mkOptions "list[0]" None None;
            FieldsetControl.mkOptions "list[1]" None None]
           [1; 1700000000000; 1700000000001]).
  simpl. lia.
Defined.

(** ** Sessions of the gate *)

Section Sessions.

Import FormValidity Session.

Context {Submitter : Type}.
Variable shouldSkipValidate : option Submitter -> bool.
Variable props : FormValidityProps.

Abbreviation handleAll := (Session.handleAll shouldSkipValidate props).
Abbreviation handle := (Session.handle shouldSkipValidate props).

Lemma finalRef_handleAll_cons e es r :
  finalRef (handleAll (e :: es) r)
  = finalRef (handleAll es (finalRef (handle e r))).
Proof.
  simpl. unfold bind, finalRef.
  destruct (handle e r) as [[[] r1] t1]. simpl.
  by destruct (handleAll es r1) as [[[] r2] t2].
Qed.

Lemma trace_handleAll_cons e es r :
  trace (handleAll (e :: es) r)
  = (trace (handle e r)
     ++ trace (handleAll es (finalRef (handle e r))))%list.
Proof.
  simpl. unfold bind, finalRef, trace.
  destruct (handle e r) as [[[] r1] t1]. simpl.
  by destruct (handleAll es r1) as [[[] r2] t2].
Qed.

Lemma finalRef_handle e r :
  finalRef (handle e r)
  = match e with
    | Blur name =>
        {| submitted := submitted r;
           touched := JS.assign (default "undefined" name) true (touched r) |}
    | Change _ => r
    | Submit _ _ => {| submitted := true; touched := touched r |}
    end.
Proof.
  destruct e as [name|name|submitter formValid]; simpl.
  - by rewrite handleBlur_run.
  - by rewrite handleChange_run.
  - by rewrite handleSubmit_run.
Qed.

Lemma trace_handle e r :
  trace (handle e r)
  = match e with
    | Blur name => CheckValidity (Control name) :: called (onBlur props)
    | Change name =>
        ((if submitted r || isTouched r (default EmptyString name)
          then [CheckValidity (Control name)] else [])
         ++ called (onChange props))%list
    | Submit submitter formValid =>
        if shouldSkipValidate submitter then called (onSubmit props)
        else if formValid
             then CheckValidity Form :: called (onSubmit props)
             else [CheckValidity Form; PreventDefault]
    end.
Proof.
  destruct e as [name|name|submitter formValid]; simpl.
  - by rewrite handleBlur_run.
  - by rewrite handleChange_run.
  - by rewrite handleSubmit_run.
Qed.

Lemma submitted_handleAll es r :
  submitted (finalRef (handleAll es r))
  = submitted r || existsb isSubmit es.
Proof.
  revert r. induction es as [|e es IH]; intros r.
  - simpl. by rewrite orb_false_r.
  - rewrite finalRef_handleAll_cons, IH, finalRef_handle.
    destruct e; simpl; [done|done|]. by rewrite orb_true_r.
Qed.

Lemma isTouched_handleAll es r a :
  isTouched (finalRef (handleAll es r)) a
  = isTouched r a || existsb (marks a) es.
Proof.
  revert r. induction es as [|e es IH]; intros r.
  - simpl. by rewrite orb_false_r.
  - rewrite finalRef_handleAll_cons, IH, finalRef_handle.
    destruct e as [name| |]; simpl; [|done|done].
    destruct (String.eqb (default "undefined" name) a) eqn:E.
    + apply String.eqb_eq in E. rewrite <- E, isTouched_assign.
      by rewrite orb_true_r.
    + apply String.eqb_neq in E.
      unfold isTouched at 1. simpl. by rewrite lookup_assign_ne.
Qed.

Lemma elem_of_called_prevent cb : PreventDefault ∉ called cb.
Proof.
  destruct cb; simpl; [|apply not_elem_of_nil].
  intros H. apply list_elem_of_singleton in H. discriminate H.
Qed.

Lemma prevent_in_handle e r :
  PreventDefault ∈ trace (handle e r) <-> blocked shouldSkipValidate e = true.
Proof.
  rewrite trace_handle.
  destruct e as [name|name|submitter formValid]; simpl.
  - split; [|done]. intros H. apply elem_of_cons in H as [H|H]; [done|].
    by apply elem_of_called_prevent in H.
  - split; [|done]. intros H. apply elem_of_app in H as [H|H].
    + destruct (submitted r || _); [|by apply elem_of_nil in H].
      apply list_elem_of_singleton in H. discriminate H.
    + by apply elem_of_called_prevent in H.
  - destruct (shouldSkipValidate submitter); simpl.
    + split; [|done]. intros H. by apply elem_of_called_prevent in H.
    + destruct formValid; simpl.
      * split; [|done]. intros H. apply elem_of_cons in H as [H|H]; [done|].
        by apply elem_of_called_prevent in H.
      * split; [done|]. intros _.
        apply list_elem_of_further, list_elem_of_here.
Qed.

Lemma length_checks_handle e r : (length (checks (trace (handle e r))) <= 1)%nat.
Proof.
  rewrite trace_handle.
  destruct e as [name|name|submitter formValid].
  - simpl. by rewrite checks_called.
  - rewrite checks_app, checks_called.
    destruct (submitted r || _); simpl; lia.
  - destruct (shouldSkipValidate submitter);
      [by rewrite checks_called; simpl; lia|].
    destruct formValid; simpl; [rewrite checks_called|]; simpl; lia.
Qed.

End Sessions.

(** X13: in a session that starts on a fresh form, a change on the control
    named [a] is validated exactly when the events so far hold a submit or
    a blur that marked [a], or [a] is the name of a member of
    [Object.prototype], which reads as touched from the start. *)
Theorem X13_change_validated_by_history
    {Submitter : Type} (shouldSkipValidate : option Submitter -> bool)
    (props : FormValidity.FormValidityProps)
    (registry : FormValidity.Target -> bool)
    (es : list (Session.Event Submitter)) (a : string) :
  let r := FormValidity.finalRef
             (Session.handleAll shouldSkipValidate props es
                FormValidity.initialRef) in
  FormValidity.checks
    (FormValidity.trace (FormValidity.handleChange registry props (Some a) r))
  = if existsb Session.isSubmit es || existsb (Session.marks a) es
       || JS.inherits a
    then [FormValidity.Control (Some a)]
    else [].
Proof.
  intros r. subst r. rewrite handleChange_run.
  unfold FormValidity.trace. simpl.
  rewrite checks_app, checks_called, app_nil_r.
  rewrite submitted_handleAll, isTouched_handleAll.
  unfold FormValidity.isTouched at 1. simpl. rewrite lookup_empty.
  destruct (existsb Session.isSubmit es), (existsb (Session.marks a) es),
           (JS.inherits a); done.
Qed.

(** X14: no event takes back what the gate has recorded: over any events,
    a form that was submitted stays submitted and a name that was touched
    stays touched. *)
Theorem X14_gate_never_forgets
    {Submitter : Type} (shouldSkipValidate : option Submitter -> bool)
    (props : FormValidity.FormValidityProps)
    (es : list (Session.Event Submitter))
    (r : FormValidity.FormRef) (a : string) :
  let r' := FormValidity.finalRef
              (Session.handleAll shouldSkipValidate props es r) in
  (FormValidity.submitted r = true -> FormValidity.submitted r' = true) /\
  (FormValidity.isTouched r a = true -> FormValidity.isTouched r' a = true).
Proof.
  intros r'. subst r'.
  rewrite submitted_handleAll, isTouched_handleAll.
  split; intros ->; done.
Qed.

Lemma X14_gate_never_forgets_witness :
  let r := FormValidity.mkRef true {[ "email" := true ]} in
  let es := [Session.Change (Some "email"); Session.Blur (Some "name");
             Session.Submit (Some tt) false] in
  let r' := FormValidity.finalRef
              (Session.handleAll (fun _ : option unit => false)
                 (FormValidity.mkProps None None None None) es r) in
  FormValidity.submitted r' = true /\ FormValidity.isTouched r' "email" = true.
Proof.
  intros r es r'.
  destruct (X14_gate_never_forgets (fun _ : option unit => false)
              (FormValidity.mkProps None None None None) es r "email")
    as [H1 H2].
  split; [exact (H1 eq_refl)|exact (H2 eq_refl)].
Defined.

(** X15: over any events, the default action is prevented exactly when
    some submit was neither exempt nor valid, so never by a blur or a
    change; and the registry is run at most once per event. *)
Theorem X15_session_effects
    {Submitter : Type} (shouldSkipValidate : option Submitter -> bool)
    (props : FormValidity.FormValidityProps)
    (es : list (Session.Event Submitter)) (r : FormValidity.FormRef) :
  let t := FormValidity.trace
             (Session.handleAll shouldSkipValidate props es r) in
  (FormValidity.PreventDefault ∈ t <->
   existsb (Session.blocked shouldSkipValidate) es = true) /\
  (length (FormValidity.checks t) <= length es)%nat.
Proof.
  intros t. subst t. revert r.
  induction es as [|e es IH]; intros r.
  - simpl. split; [|done]. split; [|done].
    intros H. by apply elem_of_nil in H.
  - rewrite trace_handleAll_cons.
    destruct (IH (FormValidity.finalRef
                    (Session.handle shouldSkipValidate props e r)))
      as [IH1 IH2].
    split.
    + rewrite elem_of_app, prevent_in_handle, IH1. simpl.
      rewrite orb_true_iff. done.
    + rewrite checks_app, length_app. simpl.
      pose proof (length_checks_handle shouldSkipValidate props e r). lia.
Qed.

Lemma X15_session_effects_witness :
  FormValidity.PreventDefault
  ∈ FormValidity.trace
      (Session.handleAll (fun _ : option unit => false)
         (FormValidity.mkProps None None None None)
         [Session.Blur (Some "email"); Session.Submit None false]
         FormValidity.initialRef).
Proof.
  apply (X15_session_effects (fun _ : option unit => false)
           (FormValidity.mkProps None None None None)
           [Session.Blur (Some "email"); Session.Submit None false]
           FormValidity.initialRef).
  reflexivity.
Defined.

(** X16: a blur on a node whose name is undefined writes the key
    ["undefined"], while a change on such a node looks up the empty key:
    the blur makes a control named ["undefined"] touched, and a change on
    the nameless node is validated after it only if the form was submitted
    or the empty key was touched already. *)
Theorem X16_nameless_target
    (registry : FormValidity.Target -> bool)
    (props : FormValidity.FormValidityProps) (r : FormValidity.FormRef) :
  let r' := FormValidity.finalRef
              (FormValidity.handleBlur registry props None r) in
  FormValidity.isTouched r' "undefined" = true /\
  FormValidity.isTouched r' EmptyString
    = FormValidity.isTouched r EmptyString /\
  FormValidity.checks
    (FormValidity.trace (FormValidity.handleChange registry props None r'))
  = if FormValidity.submitted r || FormValidity.isTouched r EmptyString
    then [FormValidity.Control None]
    else [].
Proof.
  intros r'. subst r'. rewrite handleBlur_run, handleChange_run.
  unfold FormValidity.finalRef, FormValidity.trace. simpl.
  rewrite checks_app, checks_called, app_nil_r.
  assert (FormValidity.isTouched
            {| FormValidity.submitted := FormValidity.submitted r;
               FormValidity.touched :=
                 JS.assign "undefined" true (FormValidity.touched r) |}
            EmptyString
          = FormValidity.isTouched r EmptyString) as Hsame.
  { unfold FormValidity.isTouched. simpl.
    by rewrite lookup_assign_ne. }
  rewrite Hsame.
  split; [apply (isTouched_assign r "undefined")|].
  split; [done|].
  by destruct (FormValidity.submitted r || _).
Qed.

(** ** More on the invalid handler *)

(** X17: the handler never touches the name, the constraints or the
    platform's text of the control; the only thing it may do to the control
    is to empty its custom message, and it leaves the control exactly as it
    was unless the validation message was the text ["valid"]. *)
Theorem X17_handler_spares_control
    {Field FieldConfig : Type}
    (getFieldConfig : option Field -> option FieldConfig)
    (checkCustomValidity : Fieldset.ValidityState -> FieldConfig
                           -> option string)
    (fieldset : gmap string Field)
    (e : Fieldset.HTMLInputElement) (error : gmap string string) :
  let e' := Fieldset.element
              (Fieldset.onInvalid getFieldConfig checkCustomValidity
                 fieldset e error) in
  Fieldset.name e' = Fieldset.name e /\
  Fieldset.constraints e' = Fieldset.constraints e /\
  Fieldset.nativeMessage e' = Fieldset.nativeMessage e /\
  (Fieldset.customValidity e' = Fieldset.customValidity e \/
   Fieldset.customValidity e' = EmptyString) /\
  (Fieldset.validationMessage e <> "valid" -> e' = e).
Proof.
  intros e'. subst e'.
  destruct (getFieldConfig (fieldset !! Path.getKey (Fieldset.name e)))
    as [config|] eqn:E.
  - rewrite (onInvalid_config _ _ _ e error config E).
    cbn [Fieldset.element]. unfold Fieldset.settled.
    destruct (String.eqb (Fieldset.validationMessage e) "valid") eqn:Ev.
    + repeat split; [by right|].
      intros H. by apply String.eqb_neq in H; rewrite H in Ev.
    + repeat split. by left.
  - rewrite (onInvalid_missing _ _ _ e error E).
    cbn [Fieldset.element]. repeat split. by left.
Qed.

Lemma X17_handler_spares_control_witness :
  let taken := Fieldset.mkElement "address.email" Sample.satisfied
                 EmptyString "Already taken" in
  Fieldset.element
    (Fieldset.onInvalid Sample.getFieldConfig Sample.checkCustomValidity
       Sample.fieldset taken ∅) = taken.
Proof.
  intros taken.
  apply (X17_handler_spares_control Sample.getFieldConfig
           Sample.checkCustomValidity Sample.fieldset taken ∅).
  discriminate.
Defined.

(** X18: provided [getFieldConfig] has no configuration for an undefined
    field, a control whose key is not the name of a member of
    [Object.prototype] never gets a message filed under a key that is not a
    field of the fieldset: every key of the mapping after the handler was a
    key of the mapping before it or is a field. *)
Theorem X18_handler_keeps_to_fields
    {Field FieldConfig : Type}
    (getFieldConfig : option Field -> option FieldConfig)
    (checkCustomValidity : Fieldset.ValidityState -> FieldConfig
                           -> option string)
    (fieldset : gmap string Field)
    (e : Fieldset.HTMLInputElement) (error : gmap string string)
    (k : string) :
  getFieldConfig None = None ->
  JS.inherits (Path.getKey (Fieldset.name e)) = false ->
  let o := Fieldset.onInvalid getFieldConfig checkCustomValidity
             fieldset e error in
  is_Some (Fieldset.commit (Fieldset.update o) error !! k) ->
  is_Some (error !! k) \/ is_Some (fieldset !! k).
Proof.
  intros Hnone _ o. subst o.
  destruct (getFieldConfig (fieldset !! Path.getKey (Fieldset.name e)))
    as [config|] eqn:E.
  - rewrite (onInvalid_config _ _ _ e error config E).
    cbn [Fieldset.update]. rewrite commit_errorUpdater.
    destruct (decide (Path.getKey (Fieldset.name e) = k)) as [<-|Hk].
    + intros _. right.
      destruct (fieldset !! Path.getKey (Fieldset.name e)); [done|].
      congruence.
    + rewrite lookup_insert_ne by done. by left.
  - rewrite (onInvalid_missing _ _ _ e error E). simpl. by left.
Qed.

Lemma X18_handler_keeps_to_fields_witness :
  is_Some (Sample.fieldset !! "email").
Proof.
  destruct (X18_handler_keeps_to_fields Sample.getFieldConfig
              Sample.checkCustomValidity Sample.fieldset Sample.empty ∅
              "email" eq_refl eq_refl) as [H|H].
  - by eexists.
  - by apply is_Some_None in H.
  - exact H.
Defined.

(** X19: this is how an error goes away. For a control that has a
    configuration, satisfies its constraints and carries the custom message
    ["valid"], and with no custom text for a valid state, the handler leaves
    the control valid and files the empty message under its key. *)
Theorem X19_mark_clears_error
    {Field FieldConfig : Type}
    (getFieldConfig : option Field -> option FieldConfig)
    (checkCustomValidity : Fieldset.ValidityState -> FieldConfig
                           -> option string)
    (fieldset : gmap string Field)
    (e : Fieldset.HTMLInputElement) (error : gmap string string)
    (config : FieldConfig) :
  getFieldConfig (fieldset !! Path.getKey (Fieldset.name e)) = Some config ->
  Fieldset.satisfied (Fieldset.constraints e) = true ->
  Fieldset.customValidity e = "valid" ->
  checkCustomValidity (Fieldset.mkValidity (Fieldset.constraints e) false)
    config = None ->
  let o := Fieldset.onInvalid getFieldConfig checkCustomValidity
             fieldset e error in
  Fieldset.valid (Fieldset.validity (Fieldset.element o)) = true /\
  Fieldset.synthesized o
    = Some (Path.getKey (Fieldset.name e), EmptyString) /\
  Fieldset.commit (Fieldset.update o) error
    !! Path.getKey (Fieldset.name e) = Some EmptyString.
Proof.
  intros Hc Hs Hv Hn o. subst o.
  rewrite (onInvalid_config _ _ _ e error config Hc).
  cbn [Fieldset.element Fieldset.synthesized Fieldset.update].
  assert (Fieldset.validationMessage e = "valid") as Hm.
  { unfold Fieldset.validationMessage, Fieldset.valid, Fieldset.validity.
    simpl. by rewrite Hs, Hv. }
  assert (Fieldset.settled e = Fieldset.setCustomValidity EmptyString e)
    as ->.
  { unfold Fieldset.settled. by rewrite Hm. }
  assert (Fieldset.messageOf checkCustomValidity config
            (Fieldset.setCustomValidity EmptyString e) = EmptyString) as ->.
  { unfold Fieldset.messageOf, Fieldset.validity. simpl.
    change (JS.truthy EmptyString) with false. rewrite Hn.
    unfold Fieldset.validationMessage, Fieldset.valid, Fieldset.validity.
    simpl. by rewrite Hs. }
  split.
  - unfold Fieldset.valid, Fieldset.validity. simpl. by rewrite Hs.
  - split; [done|]. by rewrite commit_errorUpdater, lookup_insert_eq.
Qed.

Lemma X19_mark_clears_error_witness :
  Fieldset.commit
    (Fieldset.update
       (Fieldset.onInvalid Sample.getFieldConfig Sample.checkCustomValidity
          Sample.fieldset Sample.marked
          {[ "email" := "Email is required" ]}))
    {[ "email" := "Email is required" ]} !! "email" = Some EmptyString.
Proof.
  apply (X19_mark_clears_error Sample.getFieldConfig
           Sample.checkCustomValidity Sample.fieldset Sample.marked
           {[ "email" := "Email is required" ]} (Some "Email is required"));
    reflexivity.
Defined.

(** X20: a control rendered under the name [getFieldProps] computes for a
    field whose key holds no ["."] has its message filed under that very
    key, whatever the parent name. *)
Theorem X20_message_filed_under_key
    {Field FieldConfig : Type}
    (getFieldConfig : option Field -> option FieldConfig)
    (checkCustomValidity : Fieldset.ValidityState -> FieldConfig
                           -> option string)
    (fieldset : gmap string Field)
    (e : Fieldset.HTMLInputElement) (error : gmap string string)
    (parent : option string) (key : string) (config : FieldConfig) :
  Fieldset.name e = Path.fieldName parent key ->
  JS.includes "." key = false ->
  getFieldConfig (fieldset !! key) = Some config ->
  let o := Fieldset.onInvalid getFieldConfig checkCustomValidity
             fieldset e error in
  exists message,
    Fieldset.synthesized o = Some (key, message) /\
    Fieldset.commit (Fieldset.update o) error !! key = Some message.
Proof.
  intros Hname Hkey Hc o. subst o.
  assert (Path.getKey (Fieldset.name e) = key) as Hk.
  { rewrite Hname. destruct parent as [p|]; unfold Path.fieldName.
    - destruct (JS.truthy p); [by apply getKey_nested|by apply getKey_plain].
    - by apply getKey_plain. }
  rewrite (onInvalid_config _ _ _ e error config) by (by rewrite Hk).
  cbn [Fieldset.synthesized Fieldset.update]. rewrite Hk.
  eexists. split; [reflexivity|].
  by rewrite commit_errorUpdater, lookup_insert_eq.
Qed.

Lemma X20_message_filed_under_key_witness :
  exists message,
    Fieldset.synthesized
      (Fieldset.onInvalid Sample.getFieldConfig Sample.checkCustomValidity
         Sample.fieldset Sample.empty ∅) = Some ("email", message) /\
    Fieldset.commit
      (Fieldset.update
         (Fieldset.onInvalid Sample.getFieldConfig
            Sample.checkCustomValidity Sample.fieldset Sample.empty ∅)) ∅
      !! "email" = Some message.
Proof.
  apply (X20_message_filed_under_key Sample.getFieldConfig
           Sample.checkCustomValidity Sample.fieldset Sample.empty ∅
           (Some "address") "email" (Some "Email is required"));
    reflexivity.
Defined.

(** X21: the handler settles in one run. Run again on the control and the
    mapping it left, it leaves the control alone, synthesises the same
    message, and its updater hands back the mapping it was given, so no
    further state change follows. *)
Theorem X21_handler_settles
    {Field FieldConfig : Type}
    (getFieldConfig : option Field -> option FieldConfig)
    (checkCustomValidity : Fieldset.ValidityState -> FieldConfig
                           -> option string)
    (fieldset : gmap string Field)
    (e : Fieldset.HTMLInputElement) (error : gmap string string) :
  let o := Fieldset.onInvalid getFieldConfig checkCustomValidity
             fieldset e error in
  let error' := Fieldset.commit (Fieldset.update o) error in
  let o' := Fieldset.onInvalid getFieldConfig checkCustomValidity
              fieldset (Fieldset.element o) error' in
  Fieldset.element o' = Fieldset.element o /\
  Fieldset.synthesized o' = Fieldset.synthesized o /\
  Fieldset.update o'
    = match Fieldset.synthesized o with
      | Some _ => Some Fieldset.Same
      | None => None
      end.
Proof.
  intros o error' o'. subst o' error' o.
  split; [apply onInvalid_element_again|].
  split; [apply onInvalid_synthesized_again|].
  destruct (getFieldConfig (fieldset !! Path.getKey (Fieldset.name e)))
    as [config|] eqn:E.
  - rewrite (onInvalid_config _ _ _ e error config E).
    cbn [Fieldset.element Fieldset.synthesized Fieldset.update].
    rewrite (onInvalid_config _ _ _ (Fieldset.settled e) _ config)
      by (by rewrite name_settled).
    cbn [Fieldset.update].
    rewrite settled_settled, name_settled, commit_errorUpdater.
    unfold Fieldset.errorUpdater.
    by rewrite decide_True by apply lookup_insert_eq.
  - rewrite (onInvalid_missing _ _ _ e error E).
    cbn [Fieldset.element Fieldset.synthesized Fieldset.update
         Fieldset.commit].
    by rewrite (onInvalid_missing _ _ _ e error E).
Qed.

(** ** The revalidation effect *)

(** X22: the effect does nothing while the schema is the object seen last.
    For another schema object it records that object, leaves the registered
    elements alone and hands something to the registry exactly for the keys
    whose message is not empty and under which [element[key]] is truthy:
    the element registered under the key, or, when nothing is registered
    under a key that names a member of [Object.prototype], that member.
    Run again with the schema it has recorded it hands over nothing,
    whatever the messages. *)
Theorem X22_revalidation_effect
    {Field : Type}
    (ref : Revalidation.HookRef Field) (schema : Revalidation.Schema Field)
    (errorMessage errorMessage' : gmap string string) :
  let out := Revalidation.effect ref schema errorMessage in
  (Revalidation.identity (Revalidation.fieldset ref)
     = Revalidation.identity schema -> out = (ref, ∅)) /\
  (Revalidation.identity (Revalidation.fieldset ref)
     <> Revalidation.identity schema ->
   Revalidation.fieldset (fst out) = schema /\
   Revalidation.element (fst out) = Revalidation.element ref /\
   forall k h,
     snd out !! k = Some h <->
     (exists message, errorMessage !! k = Some message /\
                      message <> EmptyString) /\
     ((exists el, h = Revalidation.Registered el /\
                  Revalidation.element ref !! k = Some (Some el)) \/
      (h = Revalidation.Inherited k /\
       Revalidation.element ref !! k = None /\
       JS.inherits k = true))) /\
  Revalidation.effect (fst out) schema errorMessage' = (fst out, ∅).
Proof.
  intros out. subst out. unfold Revalidation.effect.
  destruct (decide (Revalidation.identity (Revalidation.fieldset ref)
                    = Revalidation.identity schema)) as [E|E].
  - split; [done|]. split; [done|]. simpl. by rewrite decide_True.
  - split; [done|]. split; [|simpl; by rewrite decide_True].
    intros _. split; [done|]. split; [done|].
    intros k h. simpl. rewrite map_lookup_imap.
    unfold Revalidation.toCheck.
    destruct (errorMessage !! k) as [message|]; simpl.
    + unfold JS.truthy.
      destruct (String.eqb message EmptyString) eqn:Em; simpl.
      * apply String.eqb_eq in Em. split; [done|].
        intros ((m & [= <-] & Hm) & _). done.
      * apply String.eqb_neq in Em.
        destruct (Revalidation.element ref !! k) as [[el|]|].
        -- split.
           ++ intros [= <-]. split; [by exists message|].
              left. by exists el.
           ++ intros (_ & [(el' & -> & [= ->])|(_ & [=] & _)]). done.
        -- split; [done|].
           intros (_ & [(el' & _ & [=])|(_ & [=] & _)]).
        -- destruct (JS.inherits k) eqn:Ei.
           ++ split.
              ** intros [= <-]. split; [by exists message|]. by right.
              ** intros (_ & [(el' & _ & [=])|(-> & _)]). done.
           ++ split; [done|].
              intros (_ & [(el' & _ & [=])|(_ & _ & [=])]).
    + split; [done|]. intros ((m & [=] & _) & _).
Qed.

Lemma X22_revalidation_effect_witness :
  let ref := Revalidation.mkHookRef
               {[ "email" := Some Sample.empty; "city" := None ]}
               (Revalidation.mkSchema 1 Sample.fieldset) in
  let errors : gmap string string :=
    {[ "email" := "Email is required"; "city" := "Too short" ]} in
  Revalidation.effect ref (Revalidation.mkSchema 1 ∅) errors = (ref, ∅) /\
  snd (Revalidation.effect ref (Revalidation.mkSchema 2 Sample.fieldset)
         errors) !! "email" = Some (Revalidation.Registered Sample.empty).
Proof.
  intros ref errors.
  destruct (X22_revalidation_effect ref (Revalidation.mkSchema 1 ∅)
              errors errors) as (H1 & _).
  destruct (X22_revalidation_effect ref
              (Revalidation.mkSchema 2 Sample.fieldset) errors errors)
    as (_ & H2 & _).
  split; [exact (H1 eq_refl)|].
  destruct (H2 ltac:(discriminate)) as (_ & _ & H3).
  apply H3. split.
  - exists "Email is required". split; [reflexivity|discriminate].
  - left. exists Sample.empty. split; reflexivity.
Defined.
